(** * TravelBot itinerary engine

    A shallow embedding of the recommendation core of
    [travelbot_mvp_app.py]: [score_poi] and [plan_itinerary], together with
    the catalog [POIS] and the slot list [SLOTS] they read, followed by
    [attach_maps_info_to_plan] and the loop of the handler [plan].

    Conventions of the embedding.
    - A Python [str] is the list of its Unicode code points ([pystr]).
      String literals of the source are written [py "..."], which decodes the
      UTF-8 bytes of the literal.
    - A Python [int] is a [Z].  The score is a Python [float] built from the
      decimal constants [-1], [-0.5], [2.0], [1.5], [0.8] by at most four
      additions; it is carried as an exact rational [Q], and the comparisons
      of the sort and of the filter are the comparisons of [Q].
    - [str.lower] depends on the Unicode case tables of the interpreter, which
      are not part of the program: the engine is a section over an arbitrary
      [lower].  [ascii_lower] is the instance used for concrete runs, whose
      city names are ASCII.
    - A [dict] with string keys is a [gmap]; a [set] is a [gset].
    - Code that can raise returns in [result]. *)

From Stdlib Require Import QArith Lqa.
From stdpp Require Import gmap strings list pretty sorting.

Abbreviation pystr := (list N).

(** ** String literals *)

Fixpoint utf8_decode (bs : list N) : pystr :=
  match bs with
  | [] => []
  | b :: r =>
      if (b <? 128)%N then b :: utf8_decode r
      else if (b <? 224)%N then
        match r with
        | c1 :: r' => ((b - 192) * 64 + (c1 - 128))%N :: utf8_decode r'
        | _ => []
        end
      else if (b <? 240)%N then
        match r with
        | c1 :: c2 :: r' =>
            (((b - 224) * 64 + (c1 - 128)) * 64 + (c2 - 128))%N
              :: utf8_decode r'
        | _ => []
        end
      else
        match r with
        | c1 :: c2 :: c3 :: r' =>
            ((((b - 240) * 64 + (c1 - 128)) * 64 + (c2 - 128)) * 64
             + (c3 - 128))%N :: utf8_decode r'
        | _ => []
        end
  end.

Definition ascii_codes (s : string) : list N :=
  Ascii.N_of_ascii <$> String.list_ascii_of_string s.

(** [py "..."] is the Python string written ["..."] in the source. *)
Definition py (s : string) : pystr := utf8_decode (ascii_codes s).

(** [str(d)] for an integer, as used by the f-string [f"Day {d}"]. *)
Definition str_of_int (d : Z) : pystr := ascii_codes (pretty d).

(** ** [str.strip] and [str.lower] *)

(** The code points for which [str.isspace] holds (CPython's
    [_PyUnicode_IsWhitespace]). *)
Definition isspace (c : N) : bool :=
  bool_decide (c ∈ [9; 10; 11; 12; 13; 28; 29; 30; 31; 32; 133; 160; 5760;
                    8232; 8233; 8239; 8287; 12288]%N)
  || ((8192 <=? c)%N && (c <=? 8202)%N).

Fixpoint lstrip (s : pystr) : pystr :=
  match s with
  | [] => []
  | c :: r => if isspace c then lstrip r else s
  end.

Definition rstrip (s : pystr) : pystr := reverse (lstrip (reverse s)).

(** [s.strip()] *)
Definition strip (s : pystr) : pystr := rstrip (lstrip s).

(** [str.lower] restricted to ASCII: the letters [A]..[Z] are mapped to
    [a]..[z], every other code point is kept. *)
Definition ascii_lower (s : pystr) : pystr :=
  (λ c, if (65 <=? c)%N && (c <=? 90)%N then (c + 32)%N else c) <$> s.

(** ** Exceptions *)

Inductive exn := ZeroDivisionError | KeyError | IndexError.

Inductive result (A : Type) :=
  | Ok (a : A)
  | Raise (e : exn).
Arguments Ok {A} a.
Arguments Raise {A} e.

#[global] Instance result_ret : MRet result := λ A a, Ok a.
#[global] Instance result_bind : MBind result := λ A B f m,
  match m with
  | Ok a => f a
  | Raise e => Raise e
  end.

(** [a % b] on integers. *)
Definition py_mod (a b : Z) : result Z :=
  if decide (b = 0)%Z then Raise ZeroDivisionError else Ok (a `mod` b)%Z.

(** [l[i]] on a list, negative indices counting from the end. *)
Definition list_getitem {A} (l : list A) (i : Z) : result A :=
  let j := if decide (i < 0)%Z then (i + Z.of_nat (length l))%Z else i in
  if decide (j < 0)%Z then Raise IndexError
  else match l !! Z.to_nat j with
       | Some x => Ok x
       | None => Raise IndexError
       end.

(** [d[k]] on a dict. *)
Definition dict_getitem {V} (d : gmap pystr V) (k : pystr) : result V :=
  match d !! k with
  | Some v => Ok v
  | None => Raise KeyError
  end.

(** ** Data *)

(** A catalog entry (a dict in the source; [notes] is read with [.get]). *)
Record POI := {
  poi_city : pystr;
  poi_name : pystr;
  poi_tags : list pystr;
  poi_avg_stay : Z;
  poi_walk_min : Z;
  poi_price : pystr;
  poi_notes : option pystr;
}.

#[global] Instance POI_eq_dec : EqDecision POI.
Proof. solve_decision. Defined.

Record UserPref := {
  city : pystr;
  days : Z;
  interests : list pystr;
  with_kids : bool;
  budget : pystr;
  max_walk_min : Z;
  travel_style : pystr;
}.

(** An entry of a day plan. *)
Record Item := {
  slot : pystr;
  name : pystr;
  tags : list pystr;
  eta_min : Z;
  walk_min : Z;
  price : pystr;
  notes : pystr;
}.

#[global] Instance Item_eq_dec : EqDecision Item.
Proof. solve_decision. Defined.

(** The value returned by [plan_itinerary]. *)
Record Plan := {
  plan_city : pystr;
  plan_days : Z;
  itinerary : gmap pystr (list Item);
}.

Definition mkPOI (c n : string) (t : list string) (stay walk : Z)
    (p nt : string) : POI :=
  {| poi_city := py c; poi_name := py n; poi_tags := py <$> t;
     poi_avg_stay := stay; poi_walk_min := walk; poi_price := py p;
     poi_notes := Some (py nt) |}.

Definition POIS : list POI := [
  mkPOI "osaka" "도톤보리" ["야경"; "먹거리"; "쇼핑"] 90 10 "$"
        "글리코상 앞 포토스팟";
  mkPOI "osaka" "오사카성 공원" ["역사"; "자연"] 120 20 "$" "벚꽃 시즌 인기";
  mkPOI "osaka" "우메다 스카이빌딩 공중정원" ["야경"; "전망"] 80 15 "$$"
        "전망대 입장료 유";
  mkPOI "osaka" "가이유칸 수족관" ["가족"; "실내"; "동물"] 150 18 "$$$"
        "아이동반 인기";
  mkPOI "osaka" "호젠지 요코초" ["레트로"; "먹거리"; "사진"] 60 8 "$$"
        "밤 분위기 좋음";
  mkPOI "seoul" "북촌 한옥마을" ["전통"; "사진"; "산책"] 90 15 "$"
        "한복체험 연계 가능";
  mkPOI "seoul" "DDP" ["현대건축"; "전시"; "사진"] 70 12 "$" "전시 변동";
  mkPOI "seoul" "남산서울타워" ["전망"; "야경"] 80 20 "$$" "케이블카 옵션";
  mkPOI "seoul" "광장시장" ["먹거리"; "재래시장"] 60 10 "$" "빈대떡·마약김밥"
].

Definition SLOTS : list pystr :=
  [py "Morning"; py "Lunch"; py "Afternoon"; py "Dinner"; py "Night"].

(** ** Decidable comparisons of scores *)

#[global] Instance Qlt_dec (x y : Q) : Decision (x < y)%Q := Z.lt_dec _ _.
#[global] Instance Qeq_dec' (x y : Q) : Decision (x == y)%Q := Z.eq_dec _ _.

(** ** [sorted(l, key=key, reverse=True)]

    Python's sort is stable, and with [reverse=True] elements with equal keys
    keep their original order.  For keys that are totally ordered this
    determines the result, which the insertion below computes: an element is
    put behind the elements with a strictly larger key and in front of all
    others. *)
Section Sorted.
Context {A : Type} (key : A → Q).

Fixpoint insert_desc (x : A) (l : list A) : list A :=
  match l with
  | [] => [x]
  | y :: l' =>
      if decide (key x < key y)%Q then y :: insert_desc x l' else x :: l
  end.

Definition sorted_reverse (l : list A) : list A := foldr insert_desc [] l.
End Sorted.

(** ** The engine *)

Section Engine.
Variable lower : pystr → pystr.

(** [t in poi["tags"]] for a literal [t]. *)
Definition has_tag (poi : POI) (t : string) : bool :=
  bool_decide (py t ∈ poi_tags poi).

Definition score_poi (poi : POI) (pref : UserPref) : Q :=
  if decide (lower (poi_city poi) ≠ lower (city pref)) then -1
  else if decide (poi_walk_min poi > max_walk_min pref)%Z then -0.5
  else
    let overlap :=
      size (list_to_set (poi_tags poi)
            ∩ list_to_set (strip <$> interests pref) : gset pystr) in
    let score := (inject_Z (Z.of_nat overlap) * 2.0)%Q in
    let score :=
      if with_kids pref && (has_tag poi "가족" || has_tag poi "실내")
      then (score + 1.5)%Q else score in
    let score :=
      if has_tag poi "야경" || has_tag poi "전망"
      then (score + 0.8)%Q else score in
    if decide (travel_style pref = py "relax") then
      if has_tag poi "자연" || has_tag poi "산책" || has_tag poi "카페"
      then (score + 1.5)%Q else score
    else if decide (travel_style pref = py "foodie") then
      if has_tag poi "먹거리" then (score + 2.0)%Q else score
    else if decide (travel_style pref = py "sightseeing") then
      if has_tag poi "역사" || has_tag poi "전통" || has_tag poi "전망"
      then (score + 1.5)%Q else score
    else if decide (travel_style pref = py "shopping") then
      if has_tag poi "쇼핑" || has_tag poi "재래시장"
      then (score + 1.5)%Q else score
    else score.

(** The first two statements of [plan_itinerary]: sort by score,
    descending, then keep the strictly positive scores. *)
Definition rank (pref : UserPref) : list POI :=
  let ranked := sorted_reverse (λ p, score_poi p pref) POIS in
  filter (λ p, (0 < score_poi p pref)%Q) ranked.

(** The rotation of the ranked list by the variant index. *)
Definition rotate_variant (ranked : list POI) (variant : Z) : list POI :=
  if decide (variant > 0 ∧ Z.of_nat (length ranked) > 1)%Z then
    let shift := Z.to_nat (variant `mod` Z.of_nat (length ranked)) in
    drop shift ranked ++ take shift ranked
  else ranked.

(** [{f"Day {d}": [] for d in range(1, days + 1)}] *)
Definition day_name (d : Z) : pystr := py "Day " ++ str_of_int d.

Definition empty_days (days : Z) : gmap pystr (list Item) :=
  list_to_map ((λ d, (day_name d, [])) <$> seqZ 1 days).

Definition scenic (tags : list pystr) : bool :=
  bool_decide (py "야경" ∈ tags) || bool_decide (py "전망" ∈ tags).

(** The slot of a POI appended to [day_plan], given the default [slot]. *)
Definition choose_slot (day_plan : list Item) (poi : POI) (slot0 : pystr)
    : pystr :=
  if scenic (poi_tags poi) then
    let used_slots : gset pystr := list_to_set (slot <$> day_plan) in
    if decide (py "Night" ∉ used_slots) then py "Night"
    else if decide (py "Dinner" ∉ used_slots) then py "Dinner"
    else slot0
  else slot0.

Definition mkItem (s : pystr) (poi : POI) : Item :=
  {| slot := s; name := poi_name poi; tags := poi_tags poi;
     eta_min := poi_avg_stay poi; walk_min := poi_walk_min poi;
     price := poi_price poi; notes := default [] (poi_notes poi) |}.

(** One iteration of the allocation loop, for the [i]-th POI. *)
Definition place (days : Z) (i : Z) (poi : POI)
    (itinerary : gmap pystr (list Item)) : result (gmap pystr (list Item)) :=
  day_index ← py_mod i days;
  let day := day_name (day_index + 1) in
  day_plan ← dict_getitem itinerary day;
  slot_idx ← py_mod (Z.of_nat (length day_plan)) (Z.of_nat (length SLOTS));
  slot0 ← list_getitem SLOTS slot_idx;
  let s := choose_slot day_plan poi slot0 in
  Ok (<[day := day_plan ++ [mkItem s poi]]> itinerary).

(** [for i, poi in enumerate(ranked): ...], started at index [i]. *)
Fixpoint allocate (days : Z) (i : Z) (ranked : list POI)
    (itinerary : gmap pystr (list Item)) : result (gmap pystr (list Item)) :=
  match ranked with
  | [] => Ok itinerary
  | poi :: rest =>
      itinerary' ← place days i poi itinerary;
      allocate days (i + 1) rest itinerary'
  end.

Definition plan_itinerary (pref : UserPref) (variant : Z) : result Plan :=
  match rank pref with
  | [] =>
      Ok {| plan_city := city pref; plan_days := days pref;
            itinerary := empty_days (days pref) |}
  | _ =>
      let ranked := rotate_variant (rank pref) variant in
      itinerary ← allocate (days pref) 0 ranked (empty_days (days pref));
      Ok {| plan_city := city pref; plan_days := days pref;
            itinerary := itinerary |}
  end.
End Engine.


(** ** Map links and the request handler

    [attach_maps_info_to_plan] and the loop of [plan] call code outside the
    engine.  [urllib.parse.quote] is embedded below.  The two network
    services are parameters: the Places lookup is a function from the request
    URL to what the [try] block makes of the reply, and [llm_rewrite] is a
    function that may raise. *)

Inductive app_exn :=
  | EngineError (e : exn)
  | UnicodeEncodeError
  | CollaboratorError.

Inductive outcome (A : Type) :=
  | Return (a : A)
  | Throw (e : app_exn).
Arguments Return {A} a.
Arguments Throw {A} e.

#[global] Instance outcome_ret : MRet outcome := λ A a, Return a.
#[global] Instance outcome_bind : MBind outcome := λ A B f m,
  match m with
  | Return a => f a
  | Throw e => Throw e
  end.

(** An exception of the engine passes through its callers. *)
Definition lift_result {A} (r : result A) : outcome A :=
  match r with
  | Ok a => Return a
  | Raise e => Throw (EngineError e)
  end.

(** [chr(c).encode("utf-8")]: the surrogates [U+D800 .. U+DFFF] have no
    encoding.  (A Python string holds code points below [0x110000].) *)
Definition utf8_encode_cp (c : N) : outcome (list N) :=
  if (c <? 128)%N then Return [c]
  else if (c <? 2048)%N then
    Return [192 + c / 64; 128 + c mod 64]%N
  else if (c <? 65536)%N then
    if (55296 <=? c)%N && (c <=? 57343)%N then Throw UnicodeEncodeError
    else Return [224 + c / 4096; 128 + (c / 64) mod 64; 128 + c mod 64]%N
  else
    Return [240 + c / 262144; 128 + (c / 4096) mod 64;
            128 + (c / 64) mod 64; 128 + c mod 64]%N.

(** [s.encode("utf-8")] *)
Fixpoint utf8_encode (s : pystr) : outcome (list N) :=
  match s with
  | [] => Return []
  | c :: r =>
      bs ← utf8_encode_cp c;
      rest ← utf8_encode r;
      Return (bs ++ rest)
  end.

(** The bytes that [quote] keeps: letters, digits, [_.-~], and the default
    [safe="/"]. *)
Definition quote_safe (b : N) : bool :=
  ((65 <=? b)%N && (b <=? 90)%N) || ((97 <=? b)%N && (b <=? 122)%N)
  || ((48 <=? b)%N && (b <=? 57)%N)
  || bool_decide (b ∈ [95; 46; 45; 126; 47]%N).

(** One digit of ["{:02X}"]. *)
Definition hex_digit (d : N) : N :=
  if (d <? 10)%N then (48 + d)%N else (55 + d)%N.

Definition quote_byte (b : N) : pystr :=
  if quote_safe b then [b]
  else [37%N; hex_digit (b / 16); hex_digit (b mod 16)].

(** [urllib.parse.quote(s)] *)
Definition quote (s : pystr) : outcome pystr :=
  bs ← utf8_encode s;
  Return (concat (quote_byte <$> bs)).

(** What the [try] block of [attach_maps_info_to_plan] makes of a reply: an
    exception anywhere, no result, or the [lat] and [lng] read from the
    first result. *)
Inductive places_reply (json : Type) :=
  | PlacesRaised
  | PlacesNoResult
  | PlacesLocation (lat lng : option json).
Arguments PlacesRaised {json}.
Arguments PlacesNoResult {json}.
Arguments PlacesLocation {json} lat lng.

(** The keys [lat] and [lng] of an item: absent, or set (to [None] after an
    exception). *)
Inductive coords (json : Type) :=
  | NoCoords
  | Coords (lat lng : option json).
Arguments NoCoords {json}.
Arguments Coords {json} lat lng.

(** An item after [attach_maps_info_to_plan]. *)
Record MapItem (json : Type) := {
  item : Item;
  maps_url : pystr;
  latlng : coords json;
}.
Arguments item {json} _.
Arguments maps_url {json} _.
Arguments latlng {json} _.

Definition maps_search : pystr :=
  py "https://www.google.com/maps/search/?api=1&query=".

Definition places_url (encoded key : pystr) : pystr :=
  py "https://maps.googleapis.com/maps/api/place/textsearch/json"
  ++ py "?query=" ++ encoded ++ py "&key=" ++ key.

Section Decoration.
Context {json : Type}.
(** [GOOGLE_MAPS_API_KEY] and the Places service. *)
Variable api_key : option pystr.
Variable places : pystr → places_reply json.

(** The body of the inner loop, for one item. *)
Definition attach_item (pref : UserPref) (it : Item)
    : outcome (MapItem json) :=
  let query := name it ++ py " " ++ city pref in
  encoded ← quote query;
  let url := maps_search ++ encoded in
  let geo :=
    match api_key with
    | Some (c :: key) =>
        match places (places_url encoded (c :: key)) with
        | PlacesLocation lat lng => Coords lat lng
        | PlacesNoResult => NoCoords
        | PlacesRaised => Coords None None
        end
    | _ => NoCoords
    end in
  Return {| item := it; maps_url := url; latlng := geo |}.

Fixpoint attach_items (pref : UserPref) (items : list Item)
    : outcome (list (MapItem json)) :=
  match items with
  | [] => Return []
  | it :: rest =>
      it' ← attach_item pref it;
      rest' ← attach_items pref rest;
      Return (it' :: rest')
  end.

(** [attach_maps_info_to_plan(plan, pref)]: the itinerary as the function
    leaves it.  ([map_fold] visits the days in an order of its own; there is
    one exception only, so the order does not show.) *)
Definition attach_maps_info_to_plan (plan : Plan) (pref : UserPref)
    : outcome (gmap pystr (list (MapItem json))) :=
  map_fold (λ day items acc,
              done ← acc;
              items' ← attach_items pref items;
              Return (<[day := items']> done))
    (Return ∅) (itinerary plan).

(** [llm_rewrite], as far as the handler sees it. *)
Context {enhanced : Type}.
Variable llm_rewrite :
  UserPref → gmap pystr (list (MapItem json)) → outcome enhanced.

(** An entry of [plans_payload]. *)
Record Payload := {
  payload_id : pystr;
  payload_draft : gmap pystr (list (MapItem json));
  payload_enhanced : enhanced;
}.

(** The clamp of [num_plans] in [plan]. *)
Definition clamp_num_plans (num_plans : Z) : Z :=
  let num_plans := if decide (num_plans < 1)%Z then 1%Z else num_plans in
  if decide (num_plans > 3)%Z then 3%Z else num_plans.

(** One iteration of the loop of [plan]. *)
Definition plan_payload (lower : pystr → pystr) (pref : UserPref) (i : Z)
    : outcome Payload :=
  draft ← lift_result (plan_itinerary lower pref i);
  decorated ← attach_maps_info_to_plan draft pref;
  enh ← llm_rewrite pref decorated;
  Return {| payload_id := [Z.to_N (65 + i)]; payload_draft := decorated;
            payload_enhanced := enh |}.

Fixpoint plan_payloads_from (lower : pystr → pystr) (pref : UserPref)
    (variants : list Z) : outcome (list Payload) :=
  match variants with
  | [] => Return []
  | i :: rest =>
      p ← plan_payload lower pref i;
      ps ← plan_payloads_from lower pref rest;
      Return (p :: ps)
  end.

(** [plans_payload] of [plan], for the preference and the [num_plans] read
    from the request. *)
Definition plans_payload (lower : pystr → pystr) (pref : UserPref)
    (num_plans : Z) : outcome (list Payload) :=
  plan_payloads_from lower pref (seqZ 0 (clamp_num_plans num_plans)).
End Decoration.

(** ** Vocabulary of the specification

    The specification names the tags in English; the catalog and the code
    carry them in Korean. *)

Definition night_view : pystr := py "야경".
Definition scenic_overlook : pystr := py "전망".
Definition family : pystr := py "가족".
Definition indoor : pystr := py "실내".
Definition nature : pystr := py "자연".
Definition walk : pystr := py "산책".
Definition cafe : pystr := py "카페".
Definition food : pystr := py "먹거리".
Definition history : pystr := py "역사".
Definition traditional : pystr := py "전통".
Definition shopping : pystr := py "쇼핑".
Definition traditional_market : pystr := py "재래시장".

(** The POI carries one of the tags [ts]. *)
Definition carries (poi : POI) (ts : list pystr) : bool :=
  bool_decide (Exists (λ t, t ∈ poi_tags poi) ts).

(** The number of distinct tags of [tags] that occur among [wanted]. *)
Definition shared_tags (tags wanted : list pystr) : nat :=
  length (remove_dups (filter (λ t, t ∈ wanted) tags)).

Definition bonus (b : bool) (q : Q) : Q := if b then q else 0%Q.

(** The style bonus of section 4.1: at most one line applies. *)
Definition style_bonus (style : pystr) (poi : POI) : Q :=
  if decide (style = py "relax") then
    bonus (carries poi [nature; walk; cafe]) 1.5
  else if decide (style = py "foodie") then
    bonus (carries poi [food]) 2.0
  else if decide (style = py "sightseeing") then
    bonus (carries poi [history; traditional; scenic_overlook]) 1.5
  else if decide (style = py "shopping") then
    bonus (carries poi [shopping; traditional_market]) 1.5
  else 0%Q.

Definition sentinel : Q := (-1)%Q.
Definition penalty : Q := (-0.5)%Q.

(** The score of section 4.1, the interests being compared with the tags
    as the list [wanted]. *)
Definition spec_score (lower : pystr → pystr) (wanted : list pystr)
    (poi : POI) (pref : UserPref) : Q :=
  if decide (lower (poi_city poi) = lower (city pref)) then
    if decide (poi_walk_min poi ≤ max_walk_min pref)%Z then
      (2.0 * inject_Z (Z.of_nat (shared_tags (poi_tags poi) wanted))
       + bonus (with_kids pref && carries poi [family; indoor]) 1.5
       + bonus (carries poi [night_view; scenic_overlook]) 0.8
       + style_bonus (travel_style pref) poi)%Q
    else penalty
  else sentinel.

(** [a] occurs at an earlier position than [b] in [l]. *)
Definition before {A} (a b : A) (l : list A) : Prop :=
  ∃ i j, i < j ∧ l !! i = Some a ∧ l !! j = Some b.

(** A left cyclic rotation by [k]: [k] times, the first element is moved
    to the end. *)
Definition rotate_once {A} (l : list A) : list A :=
  match l with
  | [] => []
  | x :: r => r ++ [x]
  end.

Definition rotate_left {A} (k : nat) (l : list A) : list A :=
  Nat.iter k rotate_once l.

(** The slot rule of section 4.3, for an item with tags [tgs] that comes
    after the items [earlier] of its day. *)
Definition default_slot (earlier : list Item) : pystr :=
  nth (length earlier mod 5) SLOTS [].

Definition slot_used (s : pystr) (earlier : list Item) : bool :=
  bool_decide (Exists (λ it, slot it = s) earlier).

Definition spec_slot (earlier : list Item) (tgs : list pystr) : pystr :=
  if bool_decide (night_view ∈ tgs ∨ scenic_overlook ∈ tgs) then
    if negb (slot_used (py "Night") earlier) then py "Night"
    else if negb (slot_used (py "Dinner") earlier) then py "Dinner"
    else default_slot earlier
  else default_slot earlier.

(** The POI named like [poi] is in some day of the plan. *)
Definition appears_in (poi : POI) (plan : Plan) : Prop :=
  ∃ day items it,
    itinerary plan !! day = Some items ∧ it ∈ items ∧ name it = poi_name poi.

(** [t'] is [t] with whitespace added in front and behind. *)
Definition padded (t t' : pystr) : Prop :=
  ∃ l r, Forall (λ c, isspace c = true) l ∧ Forall (λ c, isspace c = true) r
         ∧ t' = l ++ t ++ r.

Definition with_interests (pref : UserPref) (ints : list pystr) : UserPref :=
  {| city := city pref; days := days pref; interests := ints;
     with_kids := with_kids pref; budget := budget pref;
     max_walk_min := max_walk_min pref; travel_style := travel_style pref |}.

Definition with_city (pref : UserPref) (c : pystr) : UserPref :=
  {| city := c; days := days pref; interests := interests pref;
     with_kids := with_kids pref; budget := budget pref;
     max_walk_min := max_walk_min pref; travel_style := travel_style pref |}.

(** ** Concrete inputs *)

(** The end-to-end scenario of section 8 (night-view is the tag 야경). *)
Definition osaka_pref : UserPref :=
  {| city := py "osaka"; days := 1; interests := [night_view];
     with_kids := false; budget := py "$$"; max_walk_min := 20;
     travel_style := py "mixed" |}.

Definition dotonbori : POI :=
  mkPOI "osaka" "도톤보리" ["야경"; "먹거리"; "쇼핑"] 90 10 "$"
        "글리코상 앞 포토스팟".

Definition umeda_sky : POI :=
  mkPOI "osaka" "우메다 스카이빌딩 공중정원" ["야경"; "전망"] 80 15 "$$"
        "전망대 입장료 유".

(** A preference that ranks three entries of the catalog. *)
Definition three_pref : UserPref :=
  {| city := py "osaka"; days := 2; interests := [night_view; food];
     with_kids := false; budget := py "$$"; max_walk_min := 20;
     travel_style := py "mixed" |}.

(** ** Reading a quoted string back

    Used to show that [quote] loses nothing. *)

(** The code points of a Python string are below [0x110000]. *)
Definition is_str (s : pystr) : Prop := Forall (λ c, (c < 1114112)%N) s.

Definition surrogate (c : N) : bool := (55296 <=? c)%N && (c <=? 57343)%N.


Definition unhex (h : N) : N := if (h <? 58)%N then (h - 48)%N else (h - 55)%N.

Fixpoint unquote_bytes (s : pystr) : list N :=
  match s with
  | [] => []
  | c :: r =>
      if (c =? 37)%N then
        match r with
        | h :: l :: r' => (unhex h * 16 + unhex l)%N :: unquote_bytes r'
        | _ => [c]
        end
      else c :: unquote_bytes r
  end.

(** ** Invariants of the allocation loop *)

(** How many of the indices [0 .. n-1] fall on day [d + 1] when there are
    [D] days. *)
Definition day_count (D n d : Z) : Z := ((n + (D - 1 - d)) / D)%Z.

(** After [n] POIs, every day [1 .. D] is in the itinerary and holds as many
    items as round-robin gave it. *)
Definition days_inv (D n : Z) (itin : gmap pystr (list Item)) : Prop :=
  ∀ d, (0 ≤ d < D)%Z →
    ∃ items, itin !! day_name (d + 1) = Some items
             ∧ Z.of_nat (length items) = day_count D n d.

(** Every item of a day has the slot that the rule of section 4.3 gives it
    after the items in front of it. *)
Definition slots_ok (items : list Item) : Prop :=
  ∀ j it, items !! j = Some it → slot it = spec_slot (take j items) (tags it).

(** Every item of the itinerary was built from a POI of [pois]. *)
Definition built_from (pois : list POI) (itin : gmap pystr (list Item)) : Prop :=
  ∀ day items it,
    itin !! day = Some items → it ∈ items → ∃ s p, p ∈ pois ∧ it = mkItem s p.

(** * Properties *)

(** ** The sort *)

Section SortedFacts.
Context {A : Type} (key : A → Q).

Lemma insert_desc_perm x l : insert_desc key x l ≡ₚ x :: l.
Proof.
  induction l as [|y l IH]; simpl; [done|].
  case_decide; [|done].
  rewrite IH. apply Permutation_swap.
Qed.

Lemma sorted_reverse_perm l : sorted_reverse key l ≡ₚ l.
Proof.
  induction l as [|x l IH]; simpl; [done|].
  by rewrite insert_desc_perm, IH.
Qed.

Lemma insert_desc_sorted x l :
  StronglySorted (λ a b, (key b <= key a)%Q) l →
  StronglySorted (λ a b, (key b <= key a)%Q) (insert_desc key x l).
Proof.
  induction 1 as [|y l Hs IH Hy]; simpl.
  - repeat constructor.
  - case_decide as Hlt.
    + constructor; [done|].
      rewrite insert_desc_perm. constructor; [|done].
      by apply Qlt_le_weak.
    + apply Qnot_lt_le in Hlt.
      constructor; [by constructor|].
      constructor; [done|].
      eapply Forall_impl; [done|]. simpl. intros z Hz.
      by apply Qle_trans with (key y).
Qed.

Lemma sorted_reverse_sorted l :
  StronglySorted (λ a b, (key b <= key a)%Q) (sorted_reverse key l).
Proof.
  induction l as [|x l IH]; simpl; [constructor|].
  by apply insert_desc_sorted.
Qed.

Lemma filter_insert_desc_eq q x l :
  (key x == q)%Q →
  filter (λ a, (key a == q)%Q) (insert_desc key x l)
  = x :: filter (λ a, (key a == q)%Q) l.
Proof.
  intros Hx. induction l as [|y l IH]; simpl.
  - by rewrite filter_cons_True.
  - case_decide as Hlt.
    + assert (¬ (key y == q)%Q) as Hy.
      { intros Hy. rewrite Hx, Hy in Hlt. by apply Qlt_irrefl in Hlt. }
      by rewrite !(filter_cons_False _ y), IH.
    + by rewrite (filter_cons_True _ x).
Qed.

Lemma filter_insert_desc_ne q x l :
  ¬ (key x == q)%Q →
  filter (λ a, (key a == q)%Q) (insert_desc key x l)
  = filter (λ a, (key a == q)%Q) l.
Proof.
  intros Hx. induction l as [|y l IH]; simpl.
  - by rewrite filter_cons_False.
  - case_decide as Hlt.
    + by rewrite !(filter_cons _ y), IH.
    + by rewrite (filter_cons_False _ x).
Qed.

(** Stability: the elements with a given key come out in the order in
    which they went in. *)
Lemma sorted_reverse_stable q l :
  filter (λ a, (key a == q)%Q) (sorted_reverse key l)
  = filter (λ a, (key a == q)%Q) l.
Proof.
  induction l as [|x l IH]; simpl; [done|].
  destruct (decide (key x == q)%Q) as [Hx|Hx].
  - by rewrite filter_insert_desc_eq, filter_cons_True, IH.
  - by rewrite filter_insert_desc_ne, filter_cons_False, IH.
Qed.
End SortedFacts.

(** ** Relative order in a list *)

Section ListFacts.
Context {A : Type}.
Implicit Types (a b x : A) (l k : list A).

Lemma before_sublist a b l : before a b l ↔ [a; b] `sublist_of` l.
Proof.
  split.
  - intros (i & j & Hij & Hi & Hj).
    revert i j Hij Hi Hj. induction l as [|x l IH]; intros i j Hij Hi Hj.
    { by rewrite lookup_nil in Hi. }
    destruct j as [|j]; [lia|]. simpl in Hj.
    destruct i as [|i]; simpl in Hi.
    + injection Hi as ->. apply sublist_skip, singleton_sublist_l.
      by eapply list_elem_of_lookup_2.
    + apply sublist_cons. eapply (IH i j); [lia|done..].
  - intros (k1 & k2 & -> & Hb)%sublist_cons_l.
    apply singleton_sublist_l, list_elem_of_lookup_1 in Hb as [n Hn].
    exists (length k1), (length k1 + S n). split; [lia|]. split.
    + by rewrite list_lookup_middle.
    + rewrite lookup_app_r by lia.
      by replace (length k1 + S n - length k1) with (S n) by lia.
Qed.

Lemma filter_sublist_mono (P : A → Prop) `{!∀ x, Decision (P x)} l k :
  l `sublist_of` k → filter P l `sublist_of` filter P k.
Proof.
  induction 1 as [|x l k _ IH|x l k _ IH]; [done|..];
    rewrite ?(filter_cons _ x); repeat case_decide;
    auto using sublist_skip, sublist_cons.
Qed.

(** Filtering keeps the relative order of the elements it keeps, and
    creates none. *)
Lemma before_filter (P : A → Prop) `{!∀ x, Decision (P x)} a b l :
  P a → P b → before a b (filter P l) ↔ before a b l.
Proof.
  intros Ha Hb. rewrite !before_sublist. split.
  - intros Hs. etrans; [done|]. apply sublist_filter.
  - intros Hs%(filter_sublist_mono P).
    by rewrite !filter_cons_True in Hs.
Qed.

Lemma StronglySorted_filter (R : relation A) (P : A → Prop)
    `{!∀ x, Decision (P x)} l :
  StronglySorted R l → StronglySorted R (filter P l).
Proof.
  induction 1 as [|x l _ IH Hx]; [constructor|].
  rewrite filter_cons. case_decide; [|done].
  constructor; [done|].
  apply Forall_forall. intros y [_ Hy]%list_elem_of_filter.
  by eapply Forall_forall in Hx.
Qed.

Lemma filter_comm (P Q : A → Prop)
    `{!∀ x, Decision (P x), !∀ x, Decision (Q x)} l :
  filter P (filter Q l) = filter Q (filter P l).
Proof. rewrite !list_filter_filter. apply list_filter_iff. tauto. Qed.

(** In a list without repetition, two elements are in one order only. *)
Lemma before_asym a b l : NoDup l → before a b l → ¬ before b a l.
Proof.
  intros Hnd (i & j & Hij & Hi & Hj) (i' & j' & Hij' & Hi' & Hj').
  pose proof (NoDup_lookup _ _ _ _ Hnd Hi Hj').
  pose proof (NoDup_lookup _ _ _ _ Hnd Hj Hi'). lia.
Qed.

(** *** Rotation *)

Lemma rotate_left_drop_take n l :
  n ≤ length l → rotate_left n l = drop n l ++ take n l.
Proof.
  unfold rotate_left. induction n as [|n IH]; intros Hn.
  - simpl. by rewrite drop_0, take_0, app_nil_r.
  - rewrite Nat.iter_succ, IH by lia.
    destruct (lookup_lt_is_Some_2 l n) as [x Hx]; [lia|].
    rewrite (drop_S _ _ _ Hx), (take_S_r _ _ _ Hx). simpl.
    by rewrite <-app_assoc.
Qed.

Lemma lookup_drop_take n l i :
  n < length l → i < length l →
  (drop n l ++ take n l) !! i = l !! ((i + n) mod length l).
Proof.
  intros Hn Hi. destruct (decide (i < length l - n)) as [Hlt|Hge].
  - rewrite lookup_app_l by (rewrite length_drop; lia).
    rewrite lookup_drop, Nat.mod_small by lia. f_equal. lia.
  - rewrite lookup_app_r by (rewrite length_drop; lia).
    rewrite length_drop, lookup_take_lt by lia. f_equal.
    replace (i + n) with ((i - (length l - n)) + 1 * length l) by lia.
    rewrite Nat.Div0.mod_add, Nat.mod_small; lia.
Qed.
End ListFacts.

(** ** Strings *)

Lemma lstrip_spaces (r : pystr) :
  Forall (λ c, isspace c = true) r → lstrip r = [].
Proof. induction 1 as [|c r Hc _ IH]; simpl; [done|]. by rewrite Hc. Qed.

Lemma lstrip_app_l (l s : pystr) :
  Forall (λ c, isspace c = true) l → lstrip (l ++ s) = lstrip s.
Proof. induction 1 as [|c l Hc _ IH]; simpl; [done|]. by rewrite Hc. Qed.

Lemma lstrip_app_r (t r : pystr) :
  Forall (λ c, isspace c = true) r →
  lstrip (t ++ r) = lstrip t ++ r ∨ (lstrip (t ++ r) = [] ∧ lstrip t = []).
Proof.
  intros Hr. induction t as [|c t IH]; simpl.
  - right. by rewrite lstrip_spaces.
  - destruct (isspace c); [done|]. by left.
Qed.

Lemma rstrip_app_r (s r : pystr) :
  Forall (λ c, isspace c = true) r → rstrip (s ++ r) = rstrip s.
Proof.
  intros Hr. unfold rstrip.
  by rewrite reverse_app, lstrip_app_l by by apply Forall_reverse.
Qed.

(** Whitespace around a string does not survive [strip]. *)
Lemma strip_padded (t t' : pystr) : padded t t' → strip t' = strip t.
Proof.
  intros (l & r & Hl & Hr & ->). unfold strip.
  rewrite lstrip_app_l by done.
  destruct (lstrip_app_r t r Hr) as [->|[-> ->]]; [|done].
  by apply rstrip_app_r.
Qed.

Lemma strip_all_padded (ints ints' : list pystr) :
  Forall2 padded ints ints' → strip <$> ints' = strip <$> ints.
Proof.
  induction 1 as [|t t' ints ints' Ht _ IH]; [done|].
  by rewrite !fmap_cons, (strip_padded _ _ Ht), IH.
Qed.

#[local] Instance ascii_codes_inj : Inj (=) (=) ascii_codes.
Proof.
  intros s1 s2 Hs. unfold ascii_codes in Hs.
  assert (Inj (=) (=) Ascii.N_of_ascii) as Hinj.
  { intros a1 a2 Ha. by rewrite <-(Ascii.ascii_N_embedding a1), Ha,
      Ascii.ascii_N_embedding. }
  apply (inj (fmap Ascii.N_of_ascii)) in Hs.
  by rewrite <-(String.string_of_list_ascii_of_string s1), Hs,
    String.string_of_list_ascii_of_string.
Qed.

(** Distinct days have distinct labels. *)
#[local] Instance day_name_inj : Inj (=) (=) day_name.
Proof.
  intros d1 d2 Hd. unfold day_name, str_of_int in Hd.
  by apply (inj (app _)), (inj ascii_codes), (inj pretty) in Hd.
Qed.

(** ** The score *)

Lemma carries_cons (poi : POI) (t : pystr) (ts : list pystr) :
  carries poi (t :: ts) = bool_decide (t ∈ poi_tags poi) || carries poi ts.
Proof.
  unfold carries. apply eq_true_iff_eq.
  rewrite orb_true_iff, !bool_decide_eq_true. apply Exists_cons.
Qed.

Lemma carries_nil (poi : POI) : carries poi [] = false.
Proof. apply bool_decide_eq_false. by intros ?%Exists_nil. Qed.

(** The size of the intersection of the two sets built by [score_poi]. *)
Lemma overlap_shared_tags (tgs wanted : list pystr) :
  size (list_to_set tgs ∩ list_to_set wanted : gset pystr)
  = shared_tags tgs wanted.
Proof.
  unfold shared_tags.
  rewrite <-(size_list_to_set (C:=gset pystr) _ (NoDup_remove_dups _)).
  f_equal. apply set_eq. intros x.
  rewrite elem_of_intersection, !elem_of_list_to_set, elem_of_remove_dups,
    list_elem_of_filter. tauto.
Qed.

Section ScoreFacts.
Variable lower : pystr → pystr.

Lemma score_poi_spec_score (poi : POI) (pref : UserPref) :
  (score_poi lower poi pref
   == spec_score lower (strip <$> interests pref) poi pref)%Q.
Proof.
  unfold score_poi, spec_score, style_bonus, sentinel, penalty.
  rewrite !carries_cons, !carries_nil, !orb_false_r, overlap_shared_tags.
  unfold has_tag, night_view, scenic_overlook, family, indoor, nature, walk,
    cafe, food, history, traditional, shopping, traditional_market.
  repeat case_decide; try done; try lia;
    repeat (destruct (bool_decide _)); destruct (with_kids pref);
    simpl; ring.
Qed.

(** The score reads the interests through [strip] only. *)
Lemma score_poi_interests (poi : POI) (pref : UserPref) (ints : list pystr) :
  strip <$> ints = strip <$> interests pref →
  score_poi lower poi (with_interests pref ints) = score_poi lower poi pref.
Proof. intros Hs. unfold score_poi. simpl. by rewrite Hs. Qed.
End ScoreFacts.

(** ** The allocation loop *)

(** The day labels initialised by [plan_itinerary]. *)
Lemma empty_days_lookup (D d : Z) :
  (1 ≤ d ≤ D)%Z → empty_days D !! day_name d = Some [].
Proof.
  intros Hd. unfold empty_days. apply elem_of_list_to_map.
  - rewrite <-list_fmap_compose. apply (NoDup_fmap_2 _), NoDup_seqZ.
  - apply (list_elem_of_fmap_2 (λ d, (day_name d, [])) _ d).
    apply elem_of_seqZ. lia.
Qed.

Lemma empty_days_empty (D : Z) (k : pystr) (items : list Item) :
  empty_days D !! k = Some items → items = [].
Proof.
  intros Hk. apply elem_of_list_to_map_2 in Hk.
  apply list_elem_of_fmap in Hk as (d & [= _ ->] & _). done.
Qed.

Lemma empty_days_dom (D : Z) :
  dom (empty_days D) = list_to_set (day_name <$> seqZ 1 D).
Proof.
  unfold empty_days. rewrite dom_list_to_map_L. f_equal.
  by rewrite <-list_fmap_compose.
Qed.

Lemma default_slot_lookup (day_plan : list Item) :
  list_getitem SLOTS
    (Z.of_nat (length day_plan) `mod` Z.of_nat (length SLOTS))%Z
  = Ok (default_slot day_plan).
Proof.
  unfold list_getitem, default_slot.
  change (length SLOTS) with 5.
  rewrite <-(Nat2Z.inj_mod (length day_plan) 5).
  assert (length day_plan mod 5 < 5) as Hk by (apply Nat.mod_upper_bound; lia).
  revert Hk. generalize (length day_plan mod 5). intros k Hk.
  rewrite (decide_False (P:=(Z.of_nat k < 0)%Z)) by lia.
  rewrite decide_False by lia.
  rewrite Nat2Z.id, nth_lookup.
  by destruct (lookup_lt_is_Some_2 SLOTS k Hk) as [s ->].
Qed.

(** One iteration, when the day of the [i]-th POI is in the itinerary. *)
Lemma place_eq (D i : Z) (poi : POI) (itin : gmap pystr (list Item))
    (day_plan : list Item) :
  D ≠ 0%Z →
  itin !! day_name (i `mod` D + 1) = Some day_plan →
  place D i poi itin
  = Ok (<[day_name (i `mod` D + 1) :=
            day_plan ++ [mkItem (choose_slot day_plan poi
                                   (default_slot day_plan)) poi]]> itin).
Proof.
  intros HD Hday. unfold place, py_mod, dict_getitem.
  rewrite decide_False by done. simpl. rewrite Hday. simpl.
  change (Z.of_nat 5) with (Z.of_nat (length SLOTS)).
  by rewrite default_slot_lookup.
Qed.

Lemma place_Ok_inv (D i : Z) (poi : POI) (itin itin' : gmap pystr (list Item)) :
  place D i poi itin = Ok itin' →
  ∃ day_plan,
    itin !! day_name (i `mod` D + 1) = Some day_plan
    ∧ itin' = <[day_name (i `mod` D + 1) :=
                  day_plan ++ [mkItem (choose_slot day_plan poi
                                         (default_slot day_plan)) poi]]> itin.
Proof.
  intros Hp. destruct (decide (D = 0%Z)) as [->|HD].
  { by unfold place, py_mod in Hp. }
  destruct (itin !! day_name (i `mod` D + 1)) as [day_plan|] eqn:Hday.
  - exists day_plan. rewrite (place_eq _ _ _ _ _ HD Hday) in Hp.
    by injection Hp as <-.
  - unfold place, py_mod, dict_getitem in Hp.
    rewrite decide_False in Hp by done. simpl in Hp. by rewrite Hday in Hp.
Qed.

(** A property of itineraries kept by every append of an item built from a
    POI of [rest] is kept by the loop. *)
Lemma allocate_invariant (I : gmap pystr (list Item) → Prop)
    (D : Z) (rest : list POI) :
  (∀ itin day day_plan s poi,
     poi ∈ rest → I itin → itin !! day = Some day_plan →
     s = choose_slot day_plan poi (default_slot day_plan) →
     I (<[day := day_plan ++ [mkItem s poi]]> itin)) →
  ∀ n itin itin',
    allocate D n rest itin = Ok itin' → I itin → I itin'.
Proof.
  induction rest as [|poi rest IH]; intros Hstep n itin itin' Hal HI.
  { simpl in Hal. by injection Hal as <-. }
  simpl in Hal.
  destruct (place D n poi itin) as [itin1|] eqn:Hp; [|done].
  apply place_Ok_inv in Hp as (day_plan & Hday & ->).
  eapply IH; [|done|].
  - intros ????? Hin. apply Hstep. by right.
  - eapply Hstep; [by left|done..].
Qed.

(** *** Round-robin counting *)

Lemma day_count_0 (D d : Z) : (0 ≤ d < D)%Z → day_count D 0 d = 0%Z.
Proof. intros Hd. unfold day_count. apply Z.div_small. lia. Qed.

Lemma day_count_hit (D n : Z) :
  (1 ≤ D)%Z → day_count D n (n `mod` D) = (n `div` D)%Z.
Proof.
  intros HD. unfold day_count.
  pose proof (Z.div_mod n D ltac:(lia)) as Hn.
  replace (n + (D - 1 - n `mod` D))%Z with ((n `div` D) * D + (D - 1))%Z
    by lia.
  rewrite Z.div_add_l by lia. rewrite (Z.div_small (D - 1)) by lia. lia.
Qed.

Lemma day_count_succ_hit (D n : Z) :
  (1 ≤ D)%Z → day_count D (n + 1) (n `mod` D) = (n `div` D + 1)%Z.
Proof.
  intros HD. unfold day_count.
  pose proof (Z.div_mod n D ltac:(lia)) as Hn.
  replace (n + 1 + (D - 1 - n `mod` D))%Z with ((n `div` D + 1) * D + 0)%Z
    by lia.
  rewrite Z.div_add_l by lia. rewrite Z.div_0_l by lia. lia.
Qed.

Lemma day_count_succ_miss (D n d : Z) :
  (0 ≤ d < D)%Z → d ≠ (n `mod` D)%Z →
  day_count D (n + 1) d = day_count D n d.
Proof.
  intros Hd Hne. unfold day_count.
  set (m := (n + (D - 1 - d))%Z).
  replace (n + 1 + (D - 1 - d))%Z with (m + 1)%Z by lia.
  pose proof (Z.div_mod m D ltac:(lia)) as Hm.
  pose proof (Z.mod_pos_bound m D ltac:(lia)) as Hb.
  destruct (decide (m `mod` D = D - 1)%Z) as [Heq|Hlt].
  - exfalso. apply Hne.
    apply (Z.mod_unique n D (m `div` D + 1 - 1)%Z d); [lia|]. unfold m in *. lia.
  - symmetry. apply (Z.div_unique (m + 1) D _ (m `mod` D + 1)%Z); lia.
Qed.

(** *** The slot rule *)

Lemma slot_used_elem (s : pystr) (day_plan : list Item) :
  slot_used s day_plan = true
  ↔ s ∈ (list_to_set (slot <$> day_plan) : gset pystr).
Proof.
  unfold slot_used.
  rewrite bool_decide_eq_true, Exists_exists, elem_of_list_to_set,
    list_elem_of_fmap.
  split; intros (it & H1 & H2); exists it; by rewrite ?list_elem_of_In in *.
Qed.

(** The override of the code is the rule of the specification. *)
Lemma choose_slot_spec (day_plan : list Item) (poi : POI) :
  choose_slot day_plan poi (default_slot day_plan)
  = spec_slot day_plan (poi_tags poi).
Proof.
  unfold choose_slot, spec_slot, scenic, night_view, scenic_overlook.
  replace (bool_decide (py "야경" ∈ poi_tags poi ∨ py "전망" ∈ poi_tags poi))
    with (bool_decide (py "야경" ∈ poi_tags poi)
          || bool_decide (py "전망" ∈ poi_tags poi))
    by (by rewrite bool_decide_or).
  destruct (_ || _); [|done].
  destruct (slot_used (py "Night") day_plan) eqn:Hn; simpl.
  - apply slot_used_elem in Hn. rewrite decide_False by (by intros []).
    destruct (slot_used (py "Dinner") day_plan) eqn:Hd; simpl.
    + apply slot_used_elem in Hd. by rewrite decide_False by (by intros []).
    + rewrite decide_True; [done|].
      intros Hd'%slot_used_elem. by rewrite Hd in Hd'.
  - rewrite decide_True; [done|].
    intros Hn'%slot_used_elem. by rewrite Hn in Hn'.
Qed.

Lemma slots_ok_snoc (items : list Item) (poi : POI) :
  slots_ok items →
  slots_ok (items ++ [mkItem (spec_slot items (poi_tags poi)) poi]).
Proof.
  intros Hok j it Hj. apply lookup_app_Some in Hj as [Hj|[Hlen Hj]].
  - rewrite take_app_le by (apply lookup_lt_Some in Hj; lia). by apply Hok.
  - apply list_lookup_singleton_Some in Hj as [Hj <-].
    replace j with (length items) by lia.
    by rewrite take_app_length.
Qed.

(** *** The loop *)

Lemma days_inv_empty (D : Z) : days_inv D 0 (empty_days D).
Proof.
  intros d Hd. exists []. split.
  - apply empty_days_lookup. lia.
  - by rewrite day_count_0.
Qed.

Lemma days_inv_place (D n : Z) (itin : gmap pystr (list Item))
    (day_plan : list Item) (it : Item) :
  (1 ≤ D)%Z →
  days_inv D n itin →
  itin !! day_name (n `mod` D + 1) = Some day_plan →
  days_inv D (n + 1) (<[day_name (n `mod` D + 1) := day_plan ++ [it]]> itin).
Proof.
  intros HD Hinv Hday d Hd.
  destruct (decide (d = n `mod` D)%Z) as [->|Hne].
  - exists (day_plan ++ [it]). split; [apply lookup_insert_eq|].
    destruct (Hinv (n `mod` D)%Z Hd) as (items & Hitems & Hlen).
    rewrite Hday in Hitems. injection Hitems as <-.
    rewrite length_app, day_count_succ_hit by done.
    rewrite day_count_hit in Hlen by done. simpl. lia.
  - destruct (Hinv d Hd) as (items & Hitems & Hlen).
    exists items. split.
    + rewrite lookup_insert_ne; [done|].
      intros Heq%(inj day_name). lia.
    + by rewrite day_count_succ_miss.
Qed.

(** With at least one day the loop never raises, keeps every day, only
    appends, and puts the POI with index [n + j] at position
    [(n + j) / D] of day [(n + j) mod D + 1]. *)
Lemma allocate_round_robin (D : Z) (rest : list POI) :
  (1 ≤ D)%Z →
  ∀ n itin, (0 ≤ n)%Z → days_inv D n itin →
  ∃ itin',
    allocate D n rest itin = Ok itin'
    ∧ days_inv D (n + Z.of_nat (length rest)) itin'
    ∧ (∀ k items, itin !! k = Some items →
         ∃ items', itin' !! k = Some items' ∧ items `prefix_of` items')
    ∧ (∀ j p, rest !! j = Some p →
         ∃ items s,
           itin' !! day_name ((n + Z.of_nat j) `mod` D + 1) = Some items
           ∧ items !! Z.to_nat ((n + Z.of_nat j) `div` D)
             = Some (mkItem s p)).
Proof.
  intros HD. induction rest as [|p rest IH]; intros n itin Hn Hinv.
  { exists itin. simpl. rewrite Z.add_0_r. split_and!; [done..| |].
    - intros k items Hk. by exists items.
    - intros j q Hj. by rewrite lookup_nil in Hj. }
  pose proof (Z.mod_pos_bound n D ltac:(lia)) as Hb.
  destruct (Hinv _ Hb) as (day_plan & Hday & Hlen).
  rewrite day_count_hit in Hlen by done.
  assert (D ≠ 0%Z) as HD0 by lia.
  simpl. rewrite (place_eq _ _ _ _ _ HD0 Hday). simpl.
  set (it := mkItem _ p).
  destruct (IH (n + 1)%Z (<[day_name (n `mod` D + 1) := day_plan ++ [it]]> itin))
    as (itin' & Hal & Hinv' & Hpre & Hpos);
    [lia|by apply days_inv_place|].
  exists itin'. split_and!.
  - done.
  - by replace (n + Z.of_nat (S (length rest)))%Z
      with (n + 1 + Z.of_nat (length rest))%Z by lia.
  - intros k items Hk.
    destruct (decide (k = day_name (n `mod` D + 1))) as [->|Hne].
    + destruct (Hpre _ _ (lookup_insert_eq _ _ _)) as (items' & ? & Hp).
      exists items'. split; [done|].
      rewrite Hday in Hk. injection Hk as <-. by eapply prefix_app_l.
    + apply Hpre. by rewrite lookup_insert_ne.
  - intros [|j] q Hj; simpl in Hj.
    + injection Hj as <-. rewrite Z.add_0_r.
      destruct (Hpre _ _ (lookup_insert_eq _ _ _)) as (items' & ? & Hp).
      exists items', (slot it). split; [done|].
      eapply prefix_lookup_Some; [|done].
      replace (Z.to_nat (n `div` D)) with (length day_plan) by lia.
      by rewrite list_lookup_middle.
    + replace (n + Z.of_nat (S j))%Z with (n + 1 + Z.of_nat j)%Z by lia.
      by apply Hpos.
Qed.

(** The loop keeps the set of day labels. *)
Lemma allocate_dom (D n : Z) (rest : list POI)
    (itin itin' : gmap pystr (list Item)) :
  allocate D n rest itin = Ok itin' → dom itin' = dom itin.
Proof.
  intros Hal.
  apply (allocate_invariant (λ m, dom m = dom itin) D rest) in Hal; [done| |done].
  intros m day day_plan s poi _ Hm Hday _.
  rewrite dom_insert_lookup_L; [done|]. by rewrite Hday.
Qed.

(** The loop keeps the slot rule. *)
Lemma allocate_slots_ok (D n : Z) (rest : list POI)
    (itin itin' : gmap pystr (list Item)) :
  allocate D n rest itin = Ok itin' →
  map_Forall (λ _, slots_ok) itin → map_Forall (λ _, slots_ok) itin'.
Proof.
  apply (allocate_invariant (map_Forall (λ _, slots_ok))).
  intros m day day_plan s poi _ Hm Hday ->.
  apply map_Forall_insert_2; [|done].
  rewrite choose_slot_spec. apply slots_ok_snoc. by apply (Hm day).
Qed.

(** The loop adds items of the POIs it is given only. *)
Lemma allocate_built_from (D n : Z) (rest : list POI)
    (itin itin' : gmap pystr (list Item)) :
  allocate D n rest itin = Ok itin' →
  built_from rest itin → built_from rest itin'.
Proof.
  apply (allocate_invariant (built_from rest)).
  intros m day day_plan s poi Hpoi Hm Hday _ day' items it Hday' Hit.
  destruct (decide (day = day')) as [->|Hne].
  - rewrite lookup_insert_eq in Hday'. injection Hday' as <-.
    apply elem_of_app in Hit as [Hit|Hit%list_elem_of_singleton].
    + by eapply Hm.
    + by exists s, poi.
  - rewrite lookup_insert_ne in Hday' by done. by eapply Hm.
Qed.

(** ** The plan *)

Section PlanFacts.
Variable lower : pystr → pystr.

Lemma rotate_variant_nil (v : Z) : rotate_variant [] v = [].
Proof. unfold rotate_variant. simpl. by rewrite decide_False by lia. Qed.

(** Both exits of [plan_itinerary] are the loop run on the rotated ranking
    (nothing is left to do when the ranking is empty). *)
Lemma plan_itinerary_unfold (pref : UserPref) (v : Z) :
  plan_itinerary lower pref v
  = (itin ← allocate (days pref) 0 (rotate_variant (rank lower pref) v)
              (empty_days (days pref));
     Ok {| plan_city := city pref; plan_days := days pref;
           itinerary := itin |}).
Proof.
  unfold plan_itinerary. destruct (rank lower pref) as [|p l]; [|done].
  by rewrite rotate_variant_nil.
Qed.

Lemma plan_itinerary_Ok (pref : UserPref) (v : Z) :
  (1 ≤ days pref)%Z →
  ∃ itin,
    allocate (days pref) 0 (rotate_variant (rank lower pref) v)
      (empty_days (days pref)) = Ok itin
    ∧ plan_itinerary lower pref v
      = Ok {| plan_city := city pref; plan_days := days pref;
              itinerary := itin |}.
Proof.
  intros HD.
  destruct (allocate_round_robin (days pref)
              (rotate_variant (rank lower pref) v) HD 0 (empty_days (days pref)))
    as (itin & Hal & _); [done|apply days_inv_empty|].
  exists itin. split; [done|].
  by rewrite plan_itinerary_unfold, Hal.
Qed.
End PlanFacts.

(** ** The catalog *)

Lemma POIS_NoDup : NoDup POIS.
Proof. apply (bool_decide_unpack _). vm_compute. exact I. Qed.

Lemma POIS_names_NoDup : NoDup (poi_name <$> POIS).
Proof. apply (bool_decide_unpack _). vm_compute. exact I. Qed.

(** Two catalog entries with one name are one entry. *)
Lemma POIS_name_inj (p q : POI) :
  p ∈ POIS → q ∈ POIS → poi_name p = poi_name q → p = q.
Proof.
  intros [i Hi]%list_elem_of_lookup_1 [j Hj]%list_elem_of_lookup_1 Hpq.
  assert (i = j) as ->; [|congruence].
  apply (NoDup_lookup _ _ _ (poi_name p) POIS_names_NoDup).
  - by rewrite list_lookup_fmap, Hi.
  - by rewrite list_lookup_fmap, Hj, Hpq.
Qed.

(** ** The ranking *)

Section RankFacts.
Variable lower : pystr → pystr.

Lemma rank_elem (pref : UserPref) (p : POI) :
  p ∈ rank lower pref ↔ p ∈ POIS ∧ (0 < score_poi lower p pref)%Q.
Proof.
  unfold rank. rewrite list_elem_of_filter, sorted_reverse_perm. tauto.
Qed.

Lemma rank_NoDup (pref : UserPref) : NoDup (rank lower pref).
Proof.
  unfold rank. apply NoDup_filter. rewrite sorted_reverse_perm.
  apply POIS_NoDup.
Qed.

Lemma rotate_variant_0 (l : list POI) : rotate_variant l 0 = l.
Proof. unfold rotate_variant. by rewrite decide_False by lia. Qed.

Lemma rotate_variant_short (l : list POI) (v : Z) :
  length l ≤ 1 → rotate_variant l v = l.
Proof. intros Hl. unfold rotate_variant. by rewrite decide_False by lia. Qed.

Lemma rotate_variant_rotate_left (l : list POI) (v : Z) :
  (0 ≤ v)%Z → 1 < length l →
  rotate_variant l v = rotate_left (Z.to_nat v mod length l) l.
Proof.
  intros Hv Hl. unfold rotate_variant.
  assert (Z.to_nat v mod length l < length l) as Hlt
    by (apply Nat.mod_upper_bound; lia).
  destruct (decide (v = 0%Z)) as [->|Hv0].
  - rewrite decide_False by lia.
    by rewrite Z2Nat.inj_0, Nat.Div0.mod_0_l.
  - rewrite decide_True by lia.
    rewrite Z2Nat.inj_mod, Nat2Z.id by lia.
    by rewrite rotate_left_drop_take by lia.
Qed.

Lemma rotate_variant_perm (l : list POI) (v : Z) : rotate_variant l v ≡ₚ l.
Proof.
  unfold rotate_variant. case_decide; [|done].
  by rewrite Permutation_app_comm, take_drop.
Qed.
End RankFacts.

(** * The claims *)

(** C1 (as amended).  [score_poi] is the score of section 4.1 once every
    interest is stripped of surrounding whitespace: the sentinel [-1] when
    the lower-cased cities differ, else the penalty [-0.5] when the POI is
    farther than [max_walk_min], else [2.0] times the number of distinct
    tags of the POI found among the stripped interests, plus [1.5] for a
    family or indoor POI when travelling with kids, plus [0.8] for a
    night-view or scenic-overlook POI, plus the bonus of the travel style
    (none for mixed and for unknown styles).  Sentinel and penalty are
    negative, below the filter's threshold. *)
Theorem score_poi_correct (lower : pystr → pystr) (poi : POI) (pref : UserPref) :
  (score_poi lower poi pref
   == spec_score lower (strip <$> interests pref) poi pref)%Q
  ∧ (sentinel < 0)%Q ∧ (penalty < 0)%Q.
Proof.
  split; [apply score_poi_spec_score|done].
Qed.

(** C1, counterexample to the claim as stated (the interests compared as
    they are): for the interest [" 야경"], with a leading blank, the code counts
    the tag [야경] of Dotonbori and scores 2.8, while no tag of the POI is
    literally among the interests and the stated formula gives 0.8. *)
Lemma score_poi_unstripped_interest :
  let pref := with_interests osaka_pref [py " 야경"] in
  (score_poi ascii_lower dotonbori pref == 2.8)%Q
  ∧ (spec_score ascii_lower (interests pref) dotonbori pref == 0.8)%Q
  ∧ ¬ (score_poi ascii_lower dotonbori pref
       == spec_score ascii_lower (interests pref) dotonbori pref)%Q.
Proof. by vm_compute. Qed.

(** C2.  The ranking of [plan_itinerary] (before rotation) is in descending
    order of score, holds exactly the catalog entries with a strictly
    positive score, and is stable: the entries of any given score come in
    catalog order, so two ranked entries of equal score are in the same
    relative order in the ranking and in [POIS]. *)
Theorem ranking_descending_stable (lower : pystr → pystr) (pref : UserPref) :
  let score p := score_poi lower p pref in
  let ranked := rank lower pref in
  StronglySorted (λ a b, (score b <= score a)%Q) ranked
  ∧ (∀ p, p ∈ ranked ↔ p ∈ POIS ∧ (0 < score p)%Q)
  ∧ (∀ q, filter (λ p, (score p == q)%Q) ranked
          = filter (λ p, (score p == q)%Q)
              (filter (λ p, (0 < score p)%Q) POIS))
  ∧ (∀ p1 p2, p1 ∈ ranked → p2 ∈ ranked → (score p1 == score p2)%Q →
       (before p1 p2 ranked ↔ before p1 p2 POIS)
       ∧ (before p1 p2 ranked → ¬ before p2 p1 ranked)).
Proof.
  intros score ranked.
  assert (∀ q, filter (λ p, (score p == q)%Q) ranked
               = filter (λ p, (score p == q)%Q)
                   (filter (λ p, (0 < score p)%Q) POIS)) as Hstable.
  { intros q. unfold ranked, rank.
    rewrite filter_comm, (sorted_reverse_stable score).
    apply filter_comm. }
  split_and!.
  - apply StronglySorted_filter, sorted_reverse_sorted.
  - apply rank_elem.
  - done.
  - intros p1 p2 [_ H1]%rank_elem [_ H2]%rank_elem Heq. split.
    + rewrite <-(before_filter (λ p, (score p == score p1)%Q) p1 p2 ranked)
        by done.
      rewrite Hstable, before_filter by done.
      by rewrite before_filter.
    + apply before_asym, rank_NoDup.
Qed.

(** C3.  For a variant index [v ≥ 0] the sequence allocated by
    [plan_itinerary] is the variant-0 sequence rotated to the left by
    [v mod length] when it has more than one element: its element [i] is
    element [(i + v) mod length] of the variant-0 sequence.  With at most one
    element it is the variant-0 sequence. *)
Theorem rotation_law (lower : pystr → pystr) (pref : UserPref) (v : Z) :
  (0 ≤ v)%Z →
  let s0 := rotate_variant (rank lower pref) 0 in
  let sv := rotate_variant (rank lower pref) v in
  let n := length s0 in
  (1 < n →
     sv = rotate_left (Z.to_nat v mod n) s0
     ∧ length sv = n
     ∧ ∀ i, i < n → sv !! i = s0 !! ((i + Z.to_nat v) mod n))
  ∧ (n ≤ 1 → sv = s0).
Proof.
  intros Hv s0 sv n. subst n sv s0. rewrite rotate_variant_0. split.
  - intros Hn.
    assert (Z.to_nat v mod length (rank lower pref)
            < length (rank lower pref)) as Hlt
      by (apply Nat.mod_upper_bound; lia).
    rewrite rotate_variant_rotate_left by done. split_and!.
    + done.
    + by rewrite rotate_left_drop_take, length_app, length_drop, length_take
        by lia; lia.
    + intros i Hi.
      rewrite rotate_left_drop_take, lookup_drop_take by lia.
      by rewrite Nat.Div0.add_mod_idemp_r.
  - intros Hn. by apply rotate_variant_short.
Qed.

Lemma rotation_law_witness :
  let s0 := rotate_variant (rank ascii_lower osaka_pref) 0 in
  let sv := rotate_variant (rank ascii_lower osaka_pref) 1 in
  (0 ≤ 1)%Z
  ∧ sv = rotate_left 1 s0
  ∧ sv = [umeda_sky; dotonbori].
Proof.
  destruct (rotation_law ascii_lower osaka_pref 1) as [H _]; [lia|].
  destruct H as [H _]; [vm_compute; lia|].
  split; [lia|]. split; [exact H|]. vm_compute. reflexivity.
Defined.

(** C4.  With at least one day, [plan_itinerary] returns, and the POI at
    index [i] of the ranked and rotated sequence is the item at position
    [i / days] of the day labelled [Day (i mod days + 1)]: the days are
    filled round-robin in the order of the sequence, whatever the scores.
    Each day holds exactly the items that round-robin gives it. *)
Theorem round_robin (lower : pystr → pystr) (pref : UserPref) (v : Z) :
  (1 ≤ days pref)%Z →
  let ranked := rotate_variant (rank lower pref) v in
  ∃ plan,
    plan_itinerary lower pref v = Ok plan
    ∧ (∀ i p, ranked !! i = Some p →
         ∃ items s,
           itinerary plan !! day_name (Z.of_nat i `mod` days pref + 1)
           = Some items
           ∧ items !! Z.to_nat (Z.of_nat i `div` days pref)
             = Some (mkItem s p))
    ∧ (∀ d, (0 ≤ d < days pref)%Z →
         ∃ items,
           itinerary plan !! day_name (d + 1) = Some items
           ∧ Z.of_nat (length items)
             = day_count (days pref) (Z.of_nat (length ranked)) d).
Proof.
  intros HD ranked.
  destruct (allocate_round_robin (days pref) ranked HD 0
              (empty_days (days pref)))
    as (itin & Hal & Hinv & _ & Hpos); [done|apply days_inv_empty|].
  exists {| plan_city := city pref; plan_days := days pref;
            itinerary := itin |}.
  split_and!.
  - rewrite plan_itinerary_unfold. fold ranked. by rewrite Hal.
  - intros i p Hi. apply (Hpos i p Hi).
  - apply Hinv.
Qed.

Lemma round_robin_witness :
  (1 ≤ days osaka_pref)%Z
  ∧ ∃ plan,
      plan_itinerary ascii_lower osaka_pref 1 = Ok plan
      ∧ ∃ items s,
          itinerary plan !! day_name 1 = Some items
          ∧ items !! 1 = Some (mkItem s dotonbori).
Proof.
  split; [vm_compute; discriminate|].
  destruct (round_robin ascii_lower osaka_pref 1) as (plan & Hp & Hpos & _);
    [vm_compute; discriminate|].
  exists plan. split; [exact Hp|].
  apply (Hpos 1 dotonbori). vm_compute. reflexivity.
Defined.



(** C6.  With [days = N ≥ 1], [plan_itinerary] returns without raising, and
    the keys of its itinerary are exactly the [N] labels [Day 1] .. [Day N];
    when no POI of the catalog has a strictly positive score, every one of
    these days is present with an empty sequence. *)
Theorem day_coverage (lower : pystr → pystr) (pref : UserPref) (v : Z) :
  (1 ≤ days pref)%Z →
  ∃ plan,
    plan_itinerary lower pref v = Ok plan
    ∧ dom (itinerary plan) = list_to_set (day_name <$> seqZ 1 (days pref))
    ∧ size (itinerary plan) = Z.to_nat (days pref)
    ∧ (∀ d, (1 ≤ d ≤ days pref)%Z →
         is_Some (itinerary plan !! day_name d))
    ∧ ((∀ p, p ∈ POIS → ¬ (0 < score_poi lower p pref)%Q) →
       ∀ d, (1 ≤ d ≤ days pref)%Z →
         itinerary plan !! day_name d = Some []).
Proof.
  intros HD.
  destruct (plan_itinerary_Ok lower pref v HD) as (itin & Hal & Hplan).
  eexists. split; [exact Hplan|]. simpl.
  assert (dom itin = list_to_set (day_name <$> seqZ 1 (days pref))) as Hdom.
  { by rewrite (allocate_dom _ _ _ _ _ Hal), empty_days_dom. }
  split_and!.
  - done.
  - rewrite <-size_dom, Hdom, size_list_to_set.
    + by rewrite length_fmap, length_seqZ.
    + apply (NoDup_fmap_2 _), NoDup_seqZ.
  - intros d Hd. apply elem_of_dom. rewrite Hdom, elem_of_list_to_set.
    apply list_elem_of_fmap_2, elem_of_seqZ. lia.
  - intros Hnone d Hd.
    assert (rank lower pref = []) as Hrank.
    { destruct (rank lower pref) as [|p l] eqn:Hr; [done|].
      assert (p ∈ rank lower pref) as [Hp Hpos]%rank_elem
        by (rewrite Hr; left).
      by destruct (Hnone p Hp). }
    rewrite Hrank, rotate_variant_nil in Hal. simpl in Hal.
    injection Hal as <-. by apply empty_days_lookup.
Qed.

Lemma day_coverage_witness :
  let pref := with_city osaka_pref (py "busan") in
  (1 ≤ days pref)%Z
  ∧ ∃ plan,
      plan_itinerary ascii_lower pref 0 = Ok plan
      ∧ size (itinerary plan) = 1
      ∧ itinerary plan !! day_name 1 = Some [].
Proof.
  split; [vm_compute; discriminate|].
  destruct (day_coverage ascii_lower (with_city osaka_pref (py "busan")) 0)
    as (plan & Hp & _ & Hsize & _ & Hempty); [vm_compute; discriminate|].
  exists plan. split; [exact Hp|]. split; [exact Hsize|].
  apply Hempty; [|vm_compute; split; discriminate].
  apply Forall_forall, (bool_decide_unpack _). vm_compute. exact I.
Defined.

(** C7 (as amended).  With at least one day, [plan_itinerary] returns, and a
    POI of the catalog whose city differs from the city of the preference
    once both are lower-cased is in no day of the itinerary. *)
Theorem exclusion (lower : pystr → pystr) (pref : UserPref) (v : Z) (p : POI) :
  (1 ≤ days pref)%Z →
  p ∈ POIS →
  lower (poi_city p) ≠ lower (city pref) →
  ∃ plan, plan_itinerary lower pref v = Ok plan ∧ ¬ appears_in p plan.
Proof.
  intros HD Hp Hcity.
  destruct (plan_itinerary_Ok lower pref v HD) as (itin & Hal & Hplan).
  eexists. split; [exact Hplan|].
  intros (day & items & it & Hday & Hit & Hname). simpl in Hday.
  apply allocate_built_from in Hal.
  - destruct (Hal day items it Hday Hit) as (s & q & Hq & ->).
    rewrite rotate_variant_perm in Hq. apply rank_elem in Hq as [Hq Hpos].
    simpl in Hname. apply (POIS_name_inj q p Hq Hp) in Hname as ->.
    unfold score_poi in Hpos. by rewrite decide_True in Hpos.
  - intros day' items' it' ->%empty_days_empty Hit'.
    by apply not_elem_of_nil in Hit'.
Qed.

Lemma exclusion_witness :
  (1 ≤ days osaka_pref)%Z
  ∧ POIS !! 8 = Some (mkPOI "seoul" "광장시장" ["먹거리"; "재래시장"] 60 10 "$"
                        "빈대떡·마약김밥")
  ∧ ∃ plan,
      plan_itinerary ascii_lower osaka_pref 0 = Ok plan
      ∧ ¬ appears_in (mkPOI "seoul" "광장시장" ["먹거리"; "재래시장"] 60 10 "$"
                        "빈대떡·마약김밥") plan.
Proof.
  split; [vm_compute; discriminate|]. split; [reflexivity|].
  apply (exclusion ascii_lower osaka_pref 0).
  - vm_compute. discriminate.
  - apply (list_elem_of_lookup_2 _ 8). reflexivity.
  - vm_compute. discriminate.
Defined.

(** C7, counterexample to the claim as stated (the cities compared as they
    are): for the city ["OSAKA"] the entry Dotonbori, whose city is
    ["osaka"], has another city than the preference, and it is the first
    item of Day 1. *)
Lemma exclusion_is_case_insensitive :
  let pref := with_city osaka_pref (py "OSAKA") in
  dotonbori ∈ POIS
  ∧ poi_city dotonbori ≠ city pref
  ∧ (1 ≤ days pref)%Z
  ∧ ∃ plan,
      plan_itinerary ascii_lower pref 0 = Ok plan
      ∧ itinerary plan !! day_name 1
        = Some [mkItem (py "Night") dotonbori; mkItem (py "Dinner") umeda_sky]
      ∧ appears_in dotonbori plan.
Proof.
  split_and!.
  - apply (list_elem_of_lookup_2 _ 0). reflexivity.
  - vm_compute. discriminate.
  - vm_compute. discriminate.
  - eexists. split; [vm_compute; reflexivity|].
    split; [vm_compute; reflexivity|].
    exists (day_name 1), [mkItem (py "Night") dotonbori;
                          mkItem (py "Dinner") umeda_sky],
      (mkItem (py "Night") dotonbori).
    split_and!; [vm_compute; reflexivity|by left|reflexivity].
Qed.

(** C8.  The end-to-end scenario: for osaka, one day, the interest
    night-view, 20 minutes of walk, no kids, style mixed, variant 0, the
    catalog entries Dotonbori (walk 10) and Umeda Sky Building (walk 15) both
    score 2.8, that is 2.0 for one shared tag plus 0.8; no other entry has a
    positive score; the ranking keeps Dotonbori first; and Day 1, the only
    day, is Dotonbori at Night followed by Umeda Sky Building at Dinner. *)
Theorem osaka_night_view_scenario :
  POIS !! 0 = Some dotonbori ∧ POIS !! 2 = Some umeda_sky
  ∧ poi_walk_min dotonbori = 10%Z ∧ poi_walk_min umeda_sky = 15%Z
  ∧ poi_tags dotonbori = [night_view; food; shopping]
  ∧ poi_tags umeda_sky = [night_view; scenic_overlook]
  ∧ (score_poi ascii_lower dotonbori osaka_pref == 2.8)%Q
  ∧ (score_poi ascii_lower umeda_sky osaka_pref == 2.8)%Q
  ∧ (score_poi ascii_lower dotonbori osaka_pref == 2.0 * 1 + 0.8)%Q
  ∧ shared_tags (poi_tags dotonbori) (interests osaka_pref) = 1
  ∧ shared_tags (poi_tags umeda_sky) (interests osaka_pref) = 1
  ∧ rank ascii_lower osaka_pref = [dotonbori; umeda_sky]
  ∧ ∃ plan,
      plan_itinerary ascii_lower osaka_pref 0 = Ok plan
      ∧ dom (itinerary plan) = {[day_name 1]}
      ∧ ∃ first second,
          itinerary plan !! day_name 1 = Some [first; second]
          ∧ slot first = py "Night" ∧ name first = poi_name dotonbori
          ∧ slot second = py "Dinner" ∧ name second = poi_name umeda_sky
          ∧ first = mkItem (py "Night") dotonbori
          ∧ second = mkItem (py "Dinner") umeda_sky.
Proof.
  split_and!; try (vm_compute; reflexivity).
  eexists. split; [vm_compute; reflexivity|]. split.
  - vm_compute. reflexivity.
  - exists (mkItem (py "Night") dotonbori), (mkItem (py "Dinner") umeda_sky).
    split_and!; vm_compute; reflexivity.
Qed.

(** C9 (as amended).  When the ranking has more than one entry, the
    sequences of the variants 0, 1 and 2 are the one ranking rotated to the
    left by 0, 1 and [2 mod length]; they start at its entries 0, 1 and
    [2 mod length].  Variants 0 and 1 differ, and so do variants 1 and 2, in
    their first entry and as sequences.  Variants 0 and 2 differ in the same
    way when the ranking has more than two entries; when it has exactly two,
    the sequence of variant 2 is the sequence of variant 0. *)
Theorem variants_distinct (lower : pystr → pystr) (pref : UserPref) :
  1 < length (rank lower pref) →
  let ranked := rank lower pref in
  let n := length ranked in
  let s v := rotate_variant ranked v in
  (s 0%Z = rotate_left 0 ranked ∧ s 1%Z = rotate_left 1 ranked
   ∧ s 2%Z = rotate_left (2 mod n) ranked)
  ∧ (head (s 0%Z) = ranked !! 0 ∧ head (s 1%Z) = ranked !! 1
     ∧ head (s 2%Z) = ranked !! (2 mod n))
  ∧ (head (s 0%Z) ≠ head (s 1%Z) ∧ head (s 1%Z) ≠ head (s 2%Z))
  ∧ (s 0%Z ≠ s 1%Z ∧ s 1%Z ≠ s 2%Z)
  ∧ (2 < n → head (s 0%Z) ≠ head (s 2%Z) ∧ s 0%Z ≠ s 2%Z)
  ∧ (n = 2 → s 2%Z = s 0%Z).
Proof.
  intros Hlen ranked n s.
  assert (NoDup ranked) as Hnd by apply rank_NoDup.
  change (1 < n) in Hlen. subst n. clearbody ranked.
  assert (∀ k, s (Z.of_nat k) = rotate_left (k mod length ranked) ranked
               ∧ head (s (Z.of_nat k)) = ranked !! (k mod length ranked))
    as Hs.
  { intros k. unfold s.
    assert (k mod length ranked < length ranked) as Hk
      by (apply Nat.mod_upper_bound; lia).
    rewrite rotate_variant_rotate_left by lia.
    rewrite Nat2Z.id. split; [done|].
    rewrite rotate_left_drop_take by lia.
    rewrite head_lookup, lookup_app_l by (rewrite length_drop; lia).
    rewrite lookup_drop. f_equal. lia. }
  destruct (Hs 0) as [Hs0 Hh0]. destruct (Hs 1) as [Hs1 Hh1].
  destruct (Hs 2) as [Hs2 Hh2].
  change (Z.of_nat 0) with 0%Z in *. change (Z.of_nat 1) with 1%Z in *.
  change (Z.of_nat 2) with 2%Z in *.
  rewrite Nat.Div0.mod_0_l in Hs0, Hh0.
  rewrite (Nat.mod_small 1) in Hs1, Hh1 by lia.
  assert (∀ i j, i < length ranked → j < length ranked → i ≠ j →
            ranked !! i ≠ ranked !! j) as Hne.
  { intros i j Hi Hj Hij Heq.
    destruct (lookup_lt_is_Some_2 ranked i) as [x Hx]; [lia|].
    rewrite Hx in Heq. symmetry in Heq.
    apply Hij. by eapply NoDup_lookup. }
  assert (2 mod length ranked < length ranked) as H2
    by (apply Nat.mod_upper_bound; lia).
  assert (2 mod length ranked ≠ 1) as H21.
  { destruct (decide (length ranked = 2)) as [->|]; [done|].
    rewrite Nat.mod_small; lia. }
  assert (head (s 0%Z) ≠ head (s 1%Z)) as H01
    by (rewrite Hh0, Hh1; apply Hne; lia).
  assert (head (s 1%Z) ≠ head (s 2%Z)) as H12
    by (rewrite Hh1, Hh2; apply Hne; lia).
  split_and!; try done.
  - intros Heq. by rewrite Heq in H01.
  - intros Heq. by rewrite Heq in H12.
  - intros H3. rewrite Nat.mod_small in Hh2 by lia.
    assert (head (s 0%Z) ≠ head (s 2%Z)) as H02
      by (rewrite Hh0, Hh2; apply Hne; lia).
    split; [done|]. intros Heq. by rewrite Heq in H02.
  - intros Hn. rewrite Hs2, Hs0, Hn. done.
Qed.

Lemma variants_distinct_witness :
  let ranked := rank ascii_lower osaka_pref in
  1 < length ranked
  ∧ head (rotate_variant ranked 0) ≠ head (rotate_variant ranked 1)
  ∧ rotate_variant ranked 1 ≠ rotate_variant ranked 2
  ∧ rotate_variant ranked 2 = rotate_variant ranked 0.
Proof.
  assert (1 < length (rank ascii_lower osaka_pref)) as Hlen
    by (vm_compute; lia).
  destruct (variants_distinct ascii_lower osaka_pref Hlen)
    as (_ & _ & (H01 & _) & (_ & H12) & _ & H20).
  split; [exact Hlen|]. split; [exact H01|]. split; [exact H12|].
  apply H20. vm_compute. reflexivity.
Defined.

(** C9, counterexample to the claim as stated: in the scenario of section 8
    the ranking has two entries, and the sequence of variant 2 is the
    sequence of variant 0. *)
Lemma variants_of_two_coincide :
  let ranked := rank ascii_lower osaka_pref in
  1 < length ranked
  ∧ rotate_variant ranked 0 = [dotonbori; umeda_sky]
  ∧ rotate_variant ranked 1 = [umeda_sky; dotonbori]
  ∧ rotate_variant ranked 2 = [dotonbori; umeda_sky]
  ∧ rotate_variant ranked 2 = rotate_variant ranked 0.
Proof.
  split_and!; [vm_compute; lia|vm_compute; reflexivity..].
Qed.

(** C10.  Whitespace added in front of or behind any of the interests leaves
    the score of every POI unchanged.  The interests enter the score through
    [strip] only, and the tags of the POI enter it as they are: the tags
    counted are those equal to a stripped interest. *)
Theorem score_poi_strip_invariant (lower : pystr → pystr) (poi : POI)
    (pref : UserPref) (ints' : list pystr) :
  Forall2 padded (interests pref) ints' →
  score_poi lower poi (with_interests pref ints') = score_poi lower poi pref
  ∧ (score_poi lower poi (with_interests pref ints')
     == spec_score lower (strip <$> interests pref) poi pref)%Q.
Proof.
  intros Hpad. apply strip_all_padded in Hpad.
  rewrite (score_poi_interests lower poi pref ints' Hpad).
  split; [done|]. apply score_poi_spec_score.
Qed.

Lemma score_poi_strip_invariant_witness :
  let ints' := [py "  야경 "] in
  Forall2 padded (interests osaka_pref) ints'
  ∧ score_poi ascii_lower dotonbori (with_interests osaka_pref ints')
    = score_poi ascii_lower dotonbori osaka_pref
  ∧ (score_poi ascii_lower dotonbori (with_interests osaka_pref ints')
     == 2.8)%Q.
Proof.
  assert (Forall2 padded (interests osaka_pref) [py "  야경 "]) as Hpad.
  { repeat constructor. exists [32%N; 32%N], [32%N].
    split_and!; [by repeat constructor..|reflexivity]. }
  destruct (score_poi_strip_invariant ascii_lower dotonbori osaka_pref _ Hpad)
    as [Heq _].
  split; [exact Hpad|]. split; [exact Heq|]. rewrite Heq. reflexivity.
Defined.

(** A tag of a POI is not stripped: a catalog entry tagged [" 야경"], with
    a leading blank, does not share the interest [야경]. *)
Example poi_tags_are_verbatim :
  let poi := mkPOI "osaka" "도톤보리" [" 야경"] 90 10 "$" "" in
  shared_tags (poi_tags poi) (strip <$> interests osaka_pref) = 0
  ∧ (score_poi ascii_lower poi osaka_pref == 0)%Q.
Proof. split; vm_compute; reflexivity. Qed.

(** * Further properties of the engine *)

(** ** Which POIs a plan holds, and where *)

Lemma day_count_index (D n d j : Z) :
  (1 ≤ D)%Z → (0 ≤ d < D)%Z → (0 ≤ j < day_count D n d)%Z →
  (j * D + d < n)%Z.
Proof.
  unfold day_count. intros HD Hd Hj.
  pose proof (Z.mul_div_le (n + (D - 1 - d)) D ltac:(lia)). nia.
Qed.

Lemma index_mod_div (D d j : Z) :
  (0 ≤ d < D)%Z →
  ((j * D + d) `mod` D = d ∧ (j * D + d) `div` D = j)%Z.
Proof.
  intros Hd. split.
  - rewrite Z.add_comm, Z_mod_plus_full. by apply Z.mod_small.
  - rewrite Z.add_comm, Z.div_add by lia. rewrite Z.div_small by done. lia.
Qed.

(** X1.  With at least one day, a catalog entry is in some day of the plan
    exactly when its score is strictly positive: nothing that passes the
    filter is dropped by the rotation or by the allocation, and nothing else
    gets in. *)
Theorem itinerary_selects_positive (lower : pystr → pystr) (pref : UserPref)
    (v : Z) (p : POI) :
  (1 ≤ days pref)%Z →
  p ∈ POIS →
  ∃ plan,
    plan_itinerary lower pref v = Ok plan
    ∧ (appears_in p plan ↔ (0 < score_poi lower p pref)%Q).
Proof.
  intros HD Hp.
  destruct (allocate_round_robin (days pref)
              (rotate_variant (rank lower pref) v) HD 0
              (empty_days (days pref)))
    as (itin & Hal & _ & _ & Hpos); [done|apply days_inv_empty|].
  exists {| plan_city := city pref; plan_days := days pref;
            itinerary := itin |}.
  split; [by rewrite plan_itinerary_unfold, Hal|]. split.
  - intros (day & items & it & Hday & Hit & Hname). simpl in Hday.
    apply allocate_built_from in Hal.
    + destruct (Hal day items it Hday Hit) as (s & q & Hq & ->).
      rewrite rotate_variant_perm in Hq. apply rank_elem in Hq as [Hq Hsc].
      simpl in Hname. by apply (POIS_name_inj q p Hq Hp) in Hname as ->.
    + intros day' items' it' ->%empty_days_empty Hit'.
      by apply not_elem_of_nil in Hit'.
  - intros Hsc.
    assert (p ∈ rotate_variant (rank lower pref) v)
      as [i Hi]%list_elem_of_lookup_1.
    { rewrite rotate_variant_perm. by apply rank_elem. }
    destruct (Hpos i p Hi) as (items & s & Hday & Hj).
    exists (day_name ((0 + Z.of_nat i) `mod` days pref + 1)), items,
      (mkItem s p).
    split_and!; [done|by eapply list_elem_of_lookup_2|done].
Qed.

Lemma itinerary_selects_positive_witness :
  (1 ≤ days osaka_pref)%Z
  ∧ umeda_sky ∈ POIS
  ∧ ∃ plan,
      plan_itinerary ascii_lower osaka_pref 1 = Ok plan
      ∧ appears_in umeda_sky plan.
Proof.
  assert (umeda_sky ∈ POIS) as Hin
    by (apply (list_elem_of_lookup_2 _ 2); reflexivity).
  split; [vm_compute; discriminate|]. split; [exact Hin|].
  destruct (itinerary_selects_positive ascii_lower osaka_pref 1 umeda_sky)
    as (plan & Hp & Happ); [vm_compute; discriminate|exact Hin|].
  exists plan. split; [exact Hp|]. apply Happ. vm_compute. reflexivity.
Defined.

(** X2.  With at least one day, the item at position [j] of day [d + 1] was
    built from the POI at index [j * days + d] of the ranked and rotated
    sequence, so that no POI is in a plan twice: two items with one name are
    one item of one day. *)
Theorem itinerary_items_once (lower : pystr → pystr) (pref : UserPref)
    (v : Z) :
  (1 ≤ days pref)%Z →
  let ranked := rotate_variant (rank lower pref) v in
  ∃ plan,
    plan_itinerary lower pref v = Ok plan
    ∧ (∀ d items j it,
         (0 ≤ d < days pref)%Z →
         itinerary plan !! day_name (d + 1) = Some items →
         items !! j = Some it →
         ∃ p s, ranked !! Z.to_nat (Z.of_nat j * days pref + d) = Some p
                ∧ it = mkItem s p)
    ∧ (∀ d1 d2 items1 items2 j1 j2 it1 it2,
         (0 ≤ d1 < days pref)%Z → (0 ≤ d2 < days pref)%Z →
         itinerary plan !! day_name (d1 + 1) = Some items1 →
         itinerary plan !! day_name (d2 + 1) = Some items2 →
         items1 !! j1 = Some it1 → items2 !! j2 = Some it2 →
         name it1 = name it2 → d1 = d2 ∧ j1 = j2).
Proof.
  intros HD ranked.
  destruct (allocate_round_robin (days pref) ranked HD 0
              (empty_days (days pref)))
    as (itin & Hal & Hinv & _ & Hpos); [done|apply days_inv_empty|].
  exists {| plan_city := city pref; plan_days := days pref;
            itinerary := itin |}.
  split; [rewrite plan_itinerary_unfold; fold ranked; by rewrite Hal|].
  simpl.
  assert (∀ d items j it,
            (0 ≤ d < days pref)%Z →
            itin !! day_name (d + 1) = Some items →
            items !! j = Some it →
            ∃ p s, ranked !! Z.to_nat (Z.of_nat j * days pref + d) = Some p
                   ∧ it = mkItem s p) as Horigin.
  { intros d items j it Hd Hday Hj.
    destruct (Hinv d Hd) as (items0 & Hday0 & Hlen).
    rewrite Hday in Hday0. injection Hday0 as <-.
    apply lookup_lt_Some in Hj as Hlt.
    pose proof (day_count_index (days pref) (0 + Z.of_nat (length ranked)) d
                  (Z.of_nat j) HD Hd ltac:(lia)) as Hi.
    destruct (index_mod_div (days pref) d (Z.of_nat j) Hd) as [Hmod Hdiv].
    destruct (lookup_lt_is_Some_2 ranked
                (Z.to_nat (Z.of_nat j * days pref + d))) as [p Hp]; [lia|].
    destruct (Hpos _ p Hp) as (items' & s & Hday' & Hj').
    rewrite Z.add_0_l, Z2Nat.id, Hmod in Hday' by lia.
    rewrite Z.add_0_l, Z2Nat.id, Hdiv, Nat2Z.id in Hj' by lia.
    rewrite Hday in Hday'. injection Hday' as <-.
    rewrite Hj in Hj'. injection Hj' as ->. by exists p, s. }
  split; [done|].
  intros d1 d2 items1 items2 j1 j2 it1 it2 Hd1 Hd2 Hday1 Hday2 Hj1 Hj2 Hname.
  destruct (Horigin _ _ _ _ Hd1 Hday1 Hj1) as (p1 & s1 & Hp1 & ->).
  destruct (Horigin _ _ _ _ Hd2 Hday2 Hj2) as (p2 & s2 & Hp2 & ->).
  simpl in Hname.
  assert (∀ q, q ∈ ranked → q ∈ POIS) as Hsub.
  { intros q Hq. unfold ranked in Hq. rewrite rotate_variant_perm in Hq.
    by apply rank_elem in Hq as [? _]. }
  apply POIS_name_inj in Hname;
    [|by eapply Hsub, list_elem_of_lookup_2..].
  subst p2.
  assert (NoDup ranked) as Hnd.
  { unfold ranked. rewrite rotate_variant_perm. apply rank_NoDup. }
  pose proof (NoDup_lookup _ _ _ _ Hnd Hp1 Hp2) as Heq.
  apply Z2Nat.inj in Heq; [|lia..].
  destruct (index_mod_div (days pref) d1 (Z.of_nat j1) Hd1) as [Hm1 Hq1].
  destruct (index_mod_div (days pref) d2 (Z.of_nat j2) Hd2) as [Hm2 Hq2].
  rewrite Heq in Hm1, Hq1. split; lia.
Qed.

Lemma itinerary_items_once_witness :
  (1 ≤ days three_pref)%Z
  ∧ ∃ plan,
      plan_itinerary ascii_lower three_pref 0 = Ok plan
      ∧ ∃ items it p s,
          itinerary plan !! day_name 1 = Some items
          ∧ items !! 1 = Some it
          ∧ rank ascii_lower three_pref !! 2 = Some p
          ∧ it = mkItem s p.
Proof.
  split; [vm_compute; discriminate|].
  destruct (itinerary_items_once ascii_lower three_pref 0)
    as (plan & Hp & Horigin & _); [vm_compute; discriminate|].
  exists plan. split; [exact Hp|].
  assert (∃ items it, itinerary plan !! day_name (0 + 1) = Some items
                      ∧ items !! 1 = Some it) as (items & it & Hday & Hj).
  { vm_compute in Hp. injection Hp as <-. do 2 eexists.
    split; vm_compute; reflexivity. }
  destruct (Horigin 0%Z items 1 it) as (p & s & Hp' & Hit);
    [vm_compute; split; [discriminate|reflexivity]|exact Hday|exact Hj|].
  exists items, it, p, s. split; [exact Hday|]. split; [exact Hj|].
  split; [exact Hp'|exact Hit].
Defined.

(** X3.  The allocation is even: with at least one day, a later day never
    holds more items than an earlier one, and never fewer than one less; a
    day is empty exactly when its number exceeds the number of ranked
    POIs. *)
Theorem itinerary_balanced (lower : pystr → pystr) (pref : UserPref) (v : Z) :
  (1 ≤ days pref)%Z →
  ∃ plan,
    plan_itinerary lower pref v = Ok plan
    ∧ (∀ d d' items items',
         (0 ≤ d ≤ d')%Z → (d' < days pref)%Z →
         itinerary plan !! day_name (d + 1) = Some items →
         itinerary plan !! day_name (d' + 1) = Some items' →
         length items' ≤ length items ≤ length items' + 1)
    ∧ (∀ d items,
         (0 ≤ d < days pref)%Z →
         itinerary plan !! day_name (d + 1) = Some items →
         items = [] ↔ (Z.of_nat (length (rank lower pref)) ≤ d)%Z).
Proof.
  intros HD.
  destruct (allocate_round_robin (days pref)
              (rotate_variant (rank lower pref) v) HD 0
              (empty_days (days pref)))
    as (itin & Hal & Hinv & _ & _); [done|apply days_inv_empty|].
  exists {| plan_city := city pref; plan_days := days pref;
            itinerary := itin |}.
  split; [by rewrite plan_itinerary_unfold, Hal|]. simpl.
  rewrite rotate_variant_perm in Hinv.
  set (n := Z.of_nat (length (rank lower pref))) in *.
  assert (∀ d items, (0 ≤ d < days pref)%Z →
            itin !! day_name (d + 1) = Some items →
            Z.of_nat (length items) = day_count (days pref) n d) as Hlen.
  { intros d items Hd Hday. destruct (Hinv d Hd) as (items0 & Hday0 & Hl).
    rewrite Hday in Hday0. injection Hday0 as <-. by rewrite Hl, Z.add_0_l. }
  split.
  - intros d d' items items' Hd Hd' Hday Hday'.
    apply Hlen in Hday; [|lia]. apply Hlen in Hday'; [|lia].
    unfold day_count in *.
    pose proof (Z.div_le_mono (n + (days pref - 1 - d'))
                  (n + (days pref - 1 - d)) (days pref) ltac:(lia) ltac:(lia)).
    pose proof (Z.div_le_mono (n + (days pref - 1 - d))
                  (n + (days pref - 1 - d') + 1 * days pref) (days pref)
                  ltac:(lia) ltac:(lia)) as Hup.
    rewrite Z.div_add in Hup by lia. lia.
  - intros d items Hd Hday. apply Hlen in Hday; [|done].
    unfold day_count in Hday.
    rewrite <-length_zero_iff_nil. split.
    + intros Hz. rewrite Hz in Hday. symmetry in Hday.
      apply Z.div_small_iff in Hday; lia.
    + intros Hn. rewrite Z.div_small in Hday by lia. lia.
Qed.

Lemma itinerary_balanced_witness :
  (1 ≤ days three_pref)%Z
  ∧ ∃ plan,
      plan_itinerary ascii_lower three_pref 0 = Ok plan
      ∧ ∃ items items',
          itinerary plan !! day_name 1 = Some items
          ∧ itinerary plan !! day_name 2 = Some items'
          ∧ length items' ≤ length items ≤ length items' + 1.
Proof.
  split; [vm_compute; discriminate|].
  destruct (itinerary_balanced ascii_lower three_pref 0)
    as (plan & Hp & Hbal & _); [vm_compute; discriminate|].
  exists plan. split; [exact Hp|].
  assert (∃ items items',
            itinerary plan !! day_name (0 + 1) = Some items
            ∧ itinerary plan !! day_name (1 + 1) = Some items')
    as (items & items' & Hday & Hday').
  { vm_compute in Hp. injection Hp as <-. do 2 eexists.
    split; vm_compute; reflexivity. }
  exists items, items'. split; [exact Hday|]. split; [exact Hday'|].
  apply (Hbal 0%Z 1%Z items items'); [lia|reflexivity|exact Hday|exact Hday'].
Defined.

(** ** Edge cases of [plan_itinerary] *)

Lemma empty_days_nonpos (D : Z) : (D ≤ 0)%Z → empty_days D = ∅.
Proof.
  intros HD. unfold empty_days, seqZ.
  by replace (Z.to_nat D) with 0 by lia.
Qed.

(** X4.  The unguarded case [days ≤ 0]: when no POI has a positive score the
    function still returns, with an itinerary that has no day at all; when
    some POI has one, the first iteration of the loop raises
    [ZeroDivisionError] for [days = 0] and [KeyError] for [days < 0]. *)
Theorem plan_itinerary_without_days (lower : pystr → pystr)
    (pref : UserPref) (v : Z) :
  (days pref ≤ 0)%Z →
  plan_itinerary lower pref v
  = match rank lower pref with
    | [] => Ok {| plan_city := city pref; plan_days := days pref;
                  itinerary := ∅ |}
    | _ :: _ =>
        Raise (if decide (days pref = 0)%Z then ZeroDivisionError
               else KeyError)
    end.
Proof.
  intros HD. rewrite plan_itinerary_unfold, (empty_days_nonpos _ HD).
  pose proof (rotate_variant_perm (rank lower pref) v) as Hperm.
  destruct (rank lower pref) as [|p l] eqn:Hr.
  { apply Permutation_nil_r in Hperm. by rewrite Hperm. }
  destruct (rotate_variant (p :: l) v) as [|q l'] eqn:Hrot.
  { by apply Permutation_nil_cons in Hperm. }
  simpl. unfold place, py_mod.
  destruct (decide (days pref = 0)%Z) as [H0|H0]; simpl; [done|].
  rewrite Z.mod_0_l by done. unfold dict_getitem.
  by rewrite lookup_empty.
Qed.

Lemma plan_itinerary_without_days_witness :
  let zero := {| city := py "osaka"; days := 0; interests := [night_view];
                 with_kids := false; budget := py "$$"; max_walk_min := 20;
                 travel_style := py "mixed" |} in
  let minus := {| city := py "osaka"; days := -1; interests := [night_view];
                  with_kids := false; budget := py "$$"; max_walk_min := 20;
                  travel_style := py "mixed" |} in
  (days zero ≤ 0)%Z ∧ (days minus ≤ 0)%Z
  ∧ plan_itinerary ascii_lower zero 0 = Raise ZeroDivisionError
  ∧ plan_itinerary ascii_lower minus 0 = Raise KeyError
  ∧ plan_itinerary ascii_lower (with_city zero (py "busan")) 0
    = Ok {| plan_city := py "busan"; plan_days := 0; itinerary := ∅ |}.
Proof.
  split; [vm_compute; discriminate|]. split; [vm_compute; discriminate|].
  split_and!.
  - rewrite plan_itinerary_without_days by (vm_compute; discriminate).
    vm_compute. reflexivity.
  - rewrite plan_itinerary_without_days by (vm_compute; discriminate).
    vm_compute. reflexivity.
  - rewrite plan_itinerary_without_days by (vm_compute; discriminate).
    vm_compute. reflexivity.
Defined.

Lemma rotate_variant_mod (l : list POI) (v : Z) :
  (0 ≤ v)%Z → l ≠ [] →
  rotate_variant l (v `mod` Z.of_nat (length l)) = rotate_variant l v.
Proof.
  intros Hv Hl.
  assert (0 < length l) as Hlen by (destruct l; [done|simpl; lia]).
  pose proof (Z.mod_pos_bound v (Z.of_nat (length l)) ltac:(lia)) as Hb.
  unfold rotate_variant.
  destruct (decide (v > 0 ∧ Z.of_nat (length l) > 1)%Z) as [[Hv0 Hl1]|Hno].
  - case_decide as Hm.
    + by rewrite Z.mod_mod by lia.
    + replace (v `mod` Z.of_nat (length l))%Z with 0%Z by lia.
      by rewrite drop_0, take_0, app_nil_r.
  - rewrite decide_False; [done|].
    intros [Hm Hl1]. apply Hno. split; [|done].
    destruct (decide (v = 0)%Z) as [->|]; [|lia].
    by rewrite Z.mod_0_l in Hm by lia.
Qed.

(** X5.  How the variant index is read: an index [v ≤ 0] gives the plan of
    variant 0; an index [v ≥ 0] gives the plan of [v mod n], [n > 0] being the
    number of ranked POIs; and with at most one ranked POI every variant
    gives the same plan. *)
Theorem plan_itinerary_variant (lower : pystr → pystr) (pref : UserPref)
    (v : Z) :
  ((v ≤ 0)%Z → plan_itinerary lower pref v = plan_itinerary lower pref 0)
  ∧ ((0 ≤ v)%Z → rank lower pref ≠ [] →
     plan_itinerary lower pref (v `mod` Z.of_nat (length (rank lower pref)))
     = plan_itinerary lower pref v)
  ∧ (length (rank lower pref) ≤ 1 →
     plan_itinerary lower pref v = plan_itinerary lower pref 0).
Proof.
  rewrite !plan_itinerary_unfold. split_and!.
  - intros Hv. rewrite rotate_variant_0.
    unfold rotate_variant. by rewrite decide_False by lia.
  - intros Hv Hne. by rewrite rotate_variant_mod.
  - intros Hl. by rewrite rotate_variant_0, rotate_variant_short.
Qed.

(** ** Slots *)

(** X6.  With at least one day, every item of the plan has one of the five
    slots of [SLOTS]. *)
Theorem itinerary_slots_valid (lower : pystr → pystr) (pref : UserPref)
    (v : Z) :
  (1 ≤ days pref)%Z →
  ∃ plan,
    plan_itinerary lower pref v = Ok plan
    ∧ ∀ day items it,
        itinerary plan !! day = Some items → it ∈ items → slot it ∈ SLOTS.
Proof.
  intros HD.
  destruct (plan_itinerary_Ok lower pref v HD) as (itin & Hal & Hplan).
  eexists. split; [exact Hplan|]. simpl.
  intros day items it Hday [j Hj]%list_elem_of_lookup_1.
  apply allocate_slots_ok in Hal.
  - rewrite (Hal day items Hday j it Hj).
    unfold spec_slot, default_slot.
    assert (nth (length (take j items) mod 5) SLOTS [] ∈ SLOTS) as Hdef.
    { apply list_elem_of_In, nth_In. change (length SLOTS) with 5.
      apply Nat.mod_upper_bound. lia. }
    repeat case_match; try done.
    + apply (list_elem_of_lookup_2 _ 4). reflexivity.
    + apply (list_elem_of_lookup_2 _ 3). reflexivity.
  - intros day' items' ->%empty_days_empty j' it'. by rewrite lookup_nil.
Qed.

Lemma itinerary_slots_valid_witness :
  (1 ≤ days three_pref)%Z
  ∧ ∃ plan,
      plan_itinerary ascii_lower three_pref 2 = Ok plan
      ∧ ∃ items it,
          itinerary plan !! day_name 2 = Some items
          ∧ items !! 0 = Some it ∧ slot it ∈ SLOTS.
Proof.
  split; [vm_compute; discriminate|].
  destruct (itinerary_slots_valid ascii_lower three_pref 2)
    as (plan & Hp & Hslots); [vm_compute; discriminate|].
  exists plan. split; [exact Hp|].
  assert (∃ items it, itinerary plan !! day_name 2 = Some items
                      ∧ items !! 0 = Some it) as (items & it & Hday & Hj).
  { vm_compute in Hp. injection Hp as <-. do 2 eexists.
    split; vm_compute; reflexivity. }
  exists items, it. split; [exact Hday|]. split; [exact Hj|].
  apply (Hslots _ _ _ Hday). apply (list_elem_of_lookup_2 _ 0). exact Hj.
Defined.

(** ** The score *)

Lemma shared_tags_mono (tgs wanted wanted' : list pystr) :
  (∀ t, t ∈ wanted → t ∈ wanted') →
  shared_tags tgs wanted ≤ shared_tags tgs wanted'.
Proof.
  intros Hsub. rewrite <-!overlap_shared_tags.
  apply subseteq_size. intros t.
  rewrite !elem_of_intersection, !elem_of_list_to_set.
  intros [Ht Hw]. split; [done|by apply Hsub].
Qed.

Lemma bonus_nonneg (b : bool) (q : Q) : (0 <= q)%Q → (0 <= bonus b q)%Q.
Proof. by destruct b. Qed.

Lemma style_bonus_nonneg (style : pystr) (poi : POI) :
  (0 <= style_bonus style poi)%Q.
Proof.
  unfold style_bonus.
  repeat (destruct (decide _)); try done; by apply bonus_nonneg.
Qed.

(** X7.  Naming more interests never lowers a score: if every interest of
    [pref] is among [ints'], each POI scores at least as much for [ints'] as
    for the interests of [pref]. *)
Theorem score_poi_monotone (lower : pystr → pystr) (poi : POI)
    (pref : UserPref) (ints' : list pystr) :
  (∀ t, t ∈ interests pref → t ∈ ints') →
  (score_poi lower poi pref
   <= score_poi lower poi (with_interests pref ints'))%Q.
Proof.
  intros Hsub. rewrite !score_poi_spec_score. unfold spec_score. simpl.
  repeat case_decide; try apply Qle_refl.
  assert (shared_tags (poi_tags poi) (strip <$> interests pref)
          ≤ shared_tags (poi_tags poi) (strip <$> ints')) as Hle.
  { apply shared_tags_mono. intros t (t0 & -> & Ht0)%list_elem_of_fmap.
    apply list_elem_of_fmap_2. by apply Hsub. }
  apply inj_le in Hle. rewrite Zle_Qle in Hle.
  repeat apply Qplus_le_l. apply Qmult_le_l; done.
Qed.

Lemma score_poi_monotone_witness :
  let ints' := [night_view; food] in
  (∀ t, t ∈ interests osaka_pref → t ∈ ints')
  ∧ (score_poi ascii_lower dotonbori osaka_pref
     <= score_poi ascii_lower dotonbori (with_interests osaka_pref ints'))%Q
  ∧ (score_poi ascii_lower dotonbori (with_interests osaka_pref ints')
     == 4.8)%Q.
Proof.
  assert (∀ t, t ∈ interests osaka_pref → t ∈ [night_view; food]) as Hsub.
  { intros t Ht. apply list_elem_of_singleton in Ht as ->. left. }
  split; [exact Hsub|]. split.
  - exact (score_poi_monotone ascii_lower dotonbori osaka_pref _ Hsub).
  - vm_compute. reflexivity.
Defined.

(** X8.  The sign of a score.  It is negative exactly when the lower-cased
    cities differ or the POI is farther than [max_walk_min]; otherwise it is
    at least [2.0] per shared tag, and it is strictly positive exactly when a
    tag is shared or one of the three bonuses applies. *)
Theorem score_poi_sign (lower : pystr → pystr) (poi : POI) (pref : UserPref) :
  let score := score_poi lower poi pref in
  let shared := shared_tags (poi_tags poi) (strip <$> interests pref) in
  let eligible := lower (poi_city poi) = lower (city pref)
                  ∧ (poi_walk_min poi ≤ max_walk_min pref)%Z in
  ((score < 0)%Q ↔ ¬ eligible)
  ∧ (eligible → (2.0 * inject_Z (Z.of_nat shared) <= score)%Q)
  ∧ ((0 < score)%Q ↔
     eligible
     ∧ (0 < shared
        ∨ with_kids pref && carries poi [family; indoor] = true
        ∨ carries poi [night_view; scenic_overlook] = true
        ∨ (0 < style_bonus (travel_style pref) poi)%Q)).
Proof.
  intros score shared eligible. subst score shared eligible.
  rewrite !score_poi_spec_score. unfold spec_score, sentinel, penalty.
  set (n := shared_tags _ _).
  assert (0 <= inject_Z (Z.of_nat n))%Q as Hn.
  { change 0%Q with (inject_Z 0). rewrite <-Zle_Qle. lia. }
  assert (0 < n → (1 <= inject_Z (Z.of_nat n))%Q) as Hn1.
  { intros ?. change 1%Q with (inject_Z 1). rewrite <-Zle_Qle. lia. }
  assert (n = 0 → (inject_Z (Z.of_nat n) == 0)%Q) as Hn0 by (by intros ->).
  pose proof (style_bonus_nonneg (travel_style pref) poi) as Hs.
  set (x := inject_Z (Z.of_nat n)) in *.
  set (sb := style_bonus (travel_style pref) poi) in *.
  set (k := with_kids pref && carries poi [family; indoor]).
  set (nv := carries poi [night_view; scenic_overlook]).
  repeat case_decide.
  - split_and!.
    + split; [|tauto]. intros Hlt. exfalso.
      destruct k, nv; unfold bonus in Hlt; lra.
    + intros _. destruct k, nv; unfold bonus; lra.
    + split.
      * intros Hpos. split; [done|].
        destruct (decide (0 < n)) as [|Hz]; [by left|right].
        assert (n = 0) as Hz' by lia. apply Hn0 in Hz'.
        destruct k; [by left|right]. destruct nv; [by left|right].
        unfold bonus in Hpos. lra.
      * intros [_ [Hp|[Hp|[Hp|Hp]]]].
        -- apply Hn1 in Hp. destruct k, nv; unfold bonus; lra.
        -- rewrite Hp. destruct nv; unfold bonus; lra.
        -- rewrite Hp. destruct k; unfold bonus; lra.
        -- destruct k, nv; unfold bonus; lra.
  - split_and!; [split; [lia|done]|lia|split; [done|lia]].
  - split_and!; [split; [tauto|done]|tauto|split; [done|tauto]].
Qed.

(** * Map links *)

(** ** [quote] *)

Ltac ndiv := zify; Z.to_euclidean_division_equations; lia.

Lemma utf8_encode_cp_Return (c : N) (bs : list N) :
  utf8_encode_cp c = Return bs → surrogate c = false.
Proof.
  unfold utf8_encode_cp, surrogate.
  destruct (N.ltb_spec c 128); [intros _; apply andb_false_iff; left;
                                 apply N.leb_gt; lia|].
  destruct (N.ltb_spec c 2048); [intros _; apply andb_false_iff; left;
                                  apply N.leb_gt; lia|].
  destruct (N.ltb_spec c 65536).
  - by destruct (_ && _).
  - intros _. apply andb_false_iff. right. apply N.leb_gt. lia.
Qed.

Lemma utf8_encode_cp_Throw (c : N) (e : app_exn) :
  utf8_encode_cp c = Throw e → e = UnicodeEncodeError ∧ surrogate c = true.
Proof.
  unfold utf8_encode_cp, surrogate.
  destruct (c <? 128)%N; [done|].
  destruct (c <? 2048)%N; [done|].
  destruct (c <? 65536)%N; [|done].
  destruct (_ && _); [|done]. by intros [= <-].
Qed.

Lemma utf8_encode_cp_bytes (c : N) (bs : list N) :
  (c < 1114112)%N → utf8_encode_cp c = Return bs →
  Forall (λ b, (b < 256)%N) bs.
Proof.
  unfold utf8_encode_cp. intros Hc.
  destruct (N.ltb_spec c 128); [intros [= <-]; repeat constructor; lia|].
  destruct (N.ltb_spec c 2048); [intros [= <-]; repeat constructor; ndiv|].
  destruct (N.ltb_spec c 65536).
  - destruct (_ && _); [done|]. intros [= <-]. repeat constructor; ndiv.
  - intros [= <-]. repeat constructor; ndiv.
Qed.

(** Decoding the bytes of a code point gives the code point. *)
Lemma utf8_decode_encode_cp (c : N) (bs rest : list N) :
  (c < 1114112)%N → utf8_encode_cp c = Return bs →
  utf8_decode (bs ++ rest) = c :: utf8_decode rest.
Proof.
  unfold utf8_encode_cp. intros Hc.
  destruct (N.ltb_spec c 128) as [H1|H1].
  { intros [= <-]. simpl. by rewrite (proj2 (N.ltb_lt _ _) H1). }
  destruct (N.ltb_spec c 2048) as [H2|H2].
  { intros [= <-]. cbn [app utf8_decode].
    rewrite (proj2 (N.ltb_ge _ _)) by ndiv.
    rewrite (proj2 (N.ltb_lt _ 224)) by ndiv.
    f_equal. ndiv. }
  destruct (N.ltb_spec c 65536) as [H3|H3].
  { destruct (_ && _); [done|]. intros [= <-]. cbn [app utf8_decode].
    rewrite (proj2 (N.ltb_ge _ 128)) by ndiv.
    rewrite (proj2 (N.ltb_ge _ 224)) by ndiv.
    rewrite (proj2 (N.ltb_lt _ 240)) by ndiv.
    f_equal. ndiv. }
  intros [= <-]. cbn [app utf8_decode].
  rewrite (proj2 (N.ltb_ge _ 128)) by ndiv.
  rewrite (proj2 (N.ltb_ge _ 224)) by ndiv.
  rewrite (proj2 (N.ltb_ge _ 240)) by ndiv.
  f_equal. ndiv.
Qed.

Lemma utf8_encode_inv (c : N) (r : pystr) (bs : list N) :
  utf8_encode (c :: r) = Return bs →
  ∃ b1 b2, utf8_encode_cp c = Return b1 ∧ utf8_encode r = Return b2
           ∧ bs = b1 ++ b2.
Proof.
  simpl. destruct (utf8_encode_cp c) as [b1|]; [|done]. simpl.
  destruct (utf8_encode r) as [b2|]; [|done]. simpl.
  intros [= <-]. by exists b1, b2.
Qed.

Lemma utf8_decode_encode (s : pystr) (bs : list N) :
  is_str s → utf8_encode s = Return bs → utf8_decode bs = s.
Proof.
  intros Hs. revert bs. induction Hs as [|c r Hc _ IH]; intros bs.
  { by intros [= <-]. }
  intros (b1 & b2 & H1 & H2 & ->)%utf8_encode_inv.
  rewrite (utf8_decode_encode_cp c b1 b2 Hc H1). f_equal. by apply IH.
Qed.

Lemma utf8_encode_bytes (s : pystr) (bs : list N) :
  is_str s → utf8_encode s = Return bs → Forall (λ b, (b < 256)%N) bs.
Proof.
  intros Hs. revert bs. induction Hs as [|c r Hc _ IH]; intros bs.
  { intros [= <-]. constructor. }
  intros (b1 & b2 & H1 & H2 & ->)%utf8_encode_inv.
  apply Forall_app. split; [by eapply utf8_encode_cp_bytes|by apply IH].
Qed.

Lemma unhex_hex_digit (d : N) : (d < 16)%N → unhex (hex_digit d) = d.
Proof.
  intros Hd. unfold unhex, hex_digit.
  destruct (N.ltb_spec d 10).
  - rewrite (proj2 (N.ltb_lt _ _)) by lia. lia.
  - rewrite (proj2 (N.ltb_ge _ _)) by lia. lia.
Qed.

Lemma quote_safe_not_percent (b : N) : quote_safe b = true → b ≠ 37%N.
Proof. by intros Hb ->. Qed.


Lemma unquote_quote_byte (b : N) (r : pystr) :
  (b < 256)%N → unquote_bytes (quote_byte b ++ r) = b :: unquote_bytes r.
Proof.
  intros Hb. unfold quote_byte.
  destruct (quote_safe b) eqn:Hsafe.
  - apply quote_safe_not_percent in Hsafe. cbn [app unquote_bytes].
    by rewrite (proj2 (N.eqb_neq _ _) Hsafe).
  - cbn [app unquote_bytes]. rewrite N.eqb_refl.
    rewrite !unhex_hex_digit by ndiv. f_equal. ndiv.
Qed.

Lemma unquote_quote_bytes (bs : list N) :
  Forall (λ b, (b < 256)%N) bs →
  unquote_bytes (concat (quote_byte <$> bs)) = bs.
Proof.
  induction 1 as [|b bs Hb _ IH]; [done|].
  rewrite fmap_cons. cbn [concat]. by rewrite unquote_quote_byte, IH.
Qed.

Lemma quote_inv (s u : pystr) :
  quote s = Return u →
  ∃ bs, utf8_encode s = Return bs ∧ u = concat (quote_byte <$> bs).
Proof.
  unfold quote. destruct (utf8_encode s) as [bs|]; [|done].
  intros [= <-]. by exists bs.
Qed.

Lemma utf8_encode_outcome (s : pystr) :
  match utf8_encode s with
  | Return _ => Forall (λ c, surrogate c = false) s
  | Throw e => e = UnicodeEncodeError ∧ Exists (λ c, surrogate c = true) s
  end.
Proof.
  induction s as [|c r IH]; simpl; [constructor|].
  destruct (utf8_encode_cp c) as [b1|e] eqn:Hc; simpl.
  - apply utf8_encode_cp_Return in Hc.
    destruct (utf8_encode r) as [b2|e]; simpl.
    + by constructor.
    + destruct IH as [-> IH]. split; [done|]. by right.
  - apply utf8_encode_cp_Throw in Hc as [-> Hc]. split; [done|]. by left.
Qed.




(** X10.  [quote] loses nothing: decoding the percent escapes and then the
    UTF-8 bytes of a quoted Python string gives the string back, so two
    strings with the same quoted form are the same string. *)
Theorem quote_injective (s1 s2 u : pystr) :
  is_str s1 → is_str s2 →
  quote s1 = Return u → quote s2 = Return u →
  utf8_decode (unquote_bytes u) = s1 ∧ s1 = s2.
Proof.
  intros Hs1 Hs2 (b1 & He1 & ->)%quote_inv (b2 & He2 & Hu)%quote_inv.
  pose proof (utf8_encode_bytes _ _ Hs1 He1) as Hb1.
  pose proof (utf8_encode_bytes _ _ Hs2 He2) as Hb2.
  assert (b1 = b2) as <-.
  { apply (f_equal unquote_bytes) in Hu.
    by rewrite !unquote_quote_bytes in Hu. }
  rewrite unquote_quote_bytes by done.
  pose proof (utf8_decode_encode _ _ Hs1 He1) as Hd1.
  pose proof (utf8_decode_encode _ _ Hs2 He2) as Hd2.
  split; [done|congruence].
Qed.

Lemma quote_injective_witness :
  let s := py "우메다 스카이빌딩 공중정원 osaka" in
  is_str s
  ∧ ∃ u, quote s = Return u ∧ utf8_decode (unquote_bytes u) = s.
Proof.
  assert (is_str (py "우메다 스카이빌딩 공중정원 osaka")) as Hs.
  { apply (bool_decide_unpack _). vm_compute. exact I. }
  split; [exact Hs|].
  destruct (quote (py "우메다 스카이빌딩 공중정원 osaka")) as [u|e] eqn:Hq.
  - exists u. split; [reflexivity|].
    exact (proj1 (quote_injective _ _ u Hs Hs Hq Hq)).
  - exfalso. vm_compute in Hq. discriminate Hq.
Defined.

(** ** [attach_maps_info_to_plan] *)

Ltac obind := cbn [mbind outcome_bind mret outcome_ret].

(** [quote] raises for surrogates, and for nothing else. *)
Lemma quote_outcome (s : pystr) :
  match quote s with
  | Return _ => Forall (λ c, surrogate c = false) s
  | Throw e => e = UnicodeEncodeError ∧ Exists (λ c, surrogate c = true) s
  end.
Proof.
  unfold quote. pose proof (utf8_encode_outcome s) as Hout.
  by destruct (utf8_encode s).
Qed.

Lemma drop_blank (P : N → Prop) (a b : pystr) :
  (Forall P (a ++ py " " ++ b) → Forall P (a ++ b))
  ∧ (¬ P 32%N → Exists P (a ++ py " " ++ b) → Exists P (a ++ b)).
Proof.
  change (py " ") with [32%N]. split.
  - rewrite !Forall_app. intros (? & _ & ?). done.
  - intros Hsp. rewrite !Exists_app.
    intros [?|[Hs|?]]; [by left| |by right].
    apply Exists_cons in Hs as [Hs|Hs]; [done|by apply Exists_nil in Hs].
Qed.

Section DecorationFacts.
Context {json : Type}.
Variable api_key : option pystr.
Variable places : pystr → places_reply json.

Lemma attach_item_inv (pref : UserPref) (it : Item) (it' : MapItem json) :
  attach_item api_key places pref it = Return it' →
  item it' = it
  ∧ ∃ enc, quote (name it ++ py " " ++ city pref) = Return enc
           ∧ maps_url it' = maps_search ++ enc.
Proof.
  unfold attach_item.
  destruct (quote _) as [enc|]; [|done]. obind.
  intros [= <-]. split; [done|]. by exists enc.
Qed.

Lemma attach_item_Throw (pref : UserPref) (it : Item) (e : app_exn) :
  attach_item api_key places pref it = Throw e →
  quote (name it ++ py " " ++ city pref) = Throw e.
Proof.
  unfold attach_item. destruct (quote _); obind; intros H;
    [discriminate H|by injection H as ->].
Qed.

Lemma attach_items_outcome (pref : UserPref) (items : list Item) :
  match attach_items api_key places pref items with
  | Return items' =>
      Forall2 (λ it it', attach_item api_key places pref it = Return it')
        items items'
  | Throw e =>
      ∃ it, it ∈ items
            ∧ quote (name it ++ py " " ++ city pref) = Throw e
  end.
Proof.
  induction items as [|it rest IH]; cbn [attach_items]; [constructor|].
  destruct (attach_item api_key places pref it) as [it'|e] eqn:Hit; obind.
  - destruct (attach_items api_key places pref rest) as [rest'|e]; obind.
    + by constructor.
    + destruct IH as (it0 & Hin & Hq). exists it0. split; [by right|done].
  - exists it. split; [by left|]. by apply attach_item_Throw.
Qed.

(** What the loop over the days leaves. *)
Lemma attach_maps_outcome (plan : Plan) (pref : UserPref) :
  match attach_maps_info_to_plan api_key places plan pref with
  | Return dec =>
      dom dec = dom (itinerary plan)
      ∧ ∀ day items, itinerary plan !! day = Some items →
          ∃ items', dec !! day = Some items'
                    ∧ attach_items api_key places pref items = Return items'
  | Throw e =>
      ∃ day items it,
        itinerary plan !! day = Some items ∧ it ∈ items
        ∧ quote (name it ++ py " " ++ city pref) = Throw e
  end.
Proof.
  unfold attach_maps_info_to_plan.
  apply (map_fold_weak_ind (λ r m,
    match r with
    | Return dec =>
        dom dec = dom m
        ∧ ∀ day items, m !! day = Some items →
            ∃ items', dec !! day = Some items'
                      ∧ attach_items api_key places pref items = Return items'
    | Throw e =>
        ∃ day items it,
          m !! day = Some items ∧ it ∈ items
          ∧ quote (name it ++ py " " ++ city pref) = Throw e
    end)).
  - split; [by rewrite !dom_empty_L|]. intros day items.
    by rewrite lookup_empty.
  - intros day items m r Hnone Hr.
    destruct r as [dec|e]; obind.
    + destruct Hr as [Hdom Hdays].
      pose proof (attach_items_outcome pref items) as Hitems.
      destruct (attach_items api_key places pref items) as [items'|e] eqn:Ha;
        obind.
      * split; [by rewrite !dom_insert_L, Hdom|].
        intros day0 items0 Hday0.
        destruct (decide (day = day0)) as [->|Hne].
        -- rewrite lookup_insert_eq in Hday0. injection Hday0 as <-.
           exists items'. by rewrite lookup_insert_eq.
        -- rewrite lookup_insert_ne in Hday0 by done.
           rewrite lookup_insert_ne by done. by apply Hdays.
      * destruct Hitems as (it & Hin & Hq).
        exists day, items, it. by rewrite lookup_insert_eq.
    + destruct Hr as (day0 & items0 & it & Hday0 & Hin & Hq).
      exists day0, items0, it. split; [|done].
      rewrite lookup_insert_ne; [done|]. intros ->. by rewrite Hnone in Hday0.
Qed.

(** X11.  When [attach_maps_info_to_plan] returns, the itinerary has the days
    it had, and every day has the items it had, in their order and with all
    their fields, each with a [maps_url] that is the search address followed
    by the quoted name and city. *)
Theorem attach_maps_keeps_itinerary (plan : Plan) (pref : UserPref)
    (dec : gmap pystr (list (MapItem json))) :
  attach_maps_info_to_plan api_key places plan pref = Return dec →
  dom dec = dom (itinerary plan)
  ∧ ∀ day items, itinerary plan !! day = Some items →
      ∃ items',
        dec !! day = Some items'
        ∧ item <$> items' = items
        ∧ Forall (λ it',
             ∃ enc,
               quote (name (item it') ++ py " " ++ city pref) = Return enc
               ∧ maps_url it' = maps_search ++ enc) items'.
Proof.
  intros Hdec. pose proof (attach_maps_outcome plan pref) as Hout.
  rewrite Hdec in Hout. destruct Hout as [Hdom Hdays].
  split; [done|]. intros day items Hday.
  destruct (Hdays day items Hday) as (items' & Hday' & Hitems).
  exists items'. split; [done|].
  pose proof (attach_items_outcome pref items) as Hall.
  rewrite Hitems in Hall. clear Hitems Hday Hday'.
  induction Hall as [|it it' items items' Hit _ [IH1 IH2]]; [by split|].
  apply attach_item_inv in Hit as (Hbase & enc & Hq & Hurl).
  split.
  - by rewrite fmap_cons, Hbase, IH1.
  - constructor; [|done]. exists enc. by rewrite Hbase.
Qed.

(** X12.  [attach_maps_info_to_plan] raises nothing but
    [UnicodeEncodeError], and raises it exactly when the name of an item or
    the city holds a surrogate; whether a key is configured and what the
    Places service answers (or that it fails) does not change that. *)
Theorem attach_maps_raises (plan : Plan) (pref : UserPref) :
  match attach_maps_info_to_plan api_key places plan pref with
  | Return _ =>
      ∀ day items it,
        itinerary plan !! day = Some items → it ∈ items →
        Forall (λ c, surrogate c = false) (name it ++ city pref)
  | Throw e =>
      e = UnicodeEncodeError
      ∧ ∃ day items it,
          itinerary plan !! day = Some items ∧ it ∈ items
          ∧ Exists (λ c, surrogate c = true) (name it ++ city pref)
  end.
Proof.
  pose proof (attach_maps_outcome plan pref) as Hout.
  destruct (attach_maps_info_to_plan api_key places plan pref) as [dec|e].
  - destruct Hout as [_ Hdays]. intros day items it Hday Hin.
    destruct (Hdays day items Hday) as (items' & _ & Hitems).
    pose proof (attach_items_outcome pref items) as Hall.
    rewrite Hitems in Hall.
    apply list_elem_of_lookup_1 in Hin as [i Hi].
    destruct (Forall2_lookup_l _ _ _ _ _ Hall Hi) as (it' & _ & Hit).
    apply attach_item_inv in Hit as (_ & enc & Hq & _).
    pose proof (quote_outcome (name it ++ py " " ++ city pref)) as Hsafe.
    rewrite Hq in Hsafe. by apply drop_blank in Hsafe.
  - destruct Hout as (day & items & it & Hday & Hin & Hq).
    pose proof (quote_outcome (name it ++ py " " ++ city pref)) as Hsafe.
    rewrite Hq in Hsafe. destruct Hsafe as [-> Hsafe].
    split; [done|]. exists day, items, it. split_and!; [done..|].
    by apply drop_blank in Hsafe.
Qed.

End DecorationFacts.

Lemma attach_maps_keeps_itinerary_witness :
  ∃ plan dec,
    plan_itinerary ascii_lower osaka_pref 0 = Ok plan
    ∧ attach_maps_info_to_plan (json:=unit) None (λ _, PlacesNoResult)
        plan osaka_pref = Return dec
    ∧ dom dec = dom (itinerary plan).
Proof.
  destruct (plan_itinerary ascii_lower osaka_pref 0) as [plan|] eqn:Hp;
    [|vm_compute in Hp; discriminate Hp].
  destruct (attach_maps_info_to_plan (json:=unit) None (λ _, PlacesNoResult)
              plan osaka_pref) as [dec|e] eqn:Hd.
  - exists plan, dec. split; [reflexivity|]. split; [exact Hd|].
    exact (proj1 (attach_maps_keeps_itinerary None (λ _, PlacesNoResult)
                    plan osaka_pref dec Hd)).
  - exfalso. vm_compute in Hp. injection Hp as <-.
    vm_compute in Hd. discriminate Hd.
Defined.


(** * The request handler *)

Lemma clamp_num_plans_range (n : Z) :
  (1 ≤ clamp_num_plans n ≤ 3)%Z
  ∧ ((1 ≤ n ≤ 3)%Z → clamp_num_plans n = n).
Proof. unfold clamp_num_plans. repeat case_decide; lia. Qed.

Lemma POIS_names_encodable :
  Forall (λ p, Forall (λ c, surrogate c = false) (poi_name p)) POIS.
Proof. apply (bool_decide_unpack _). vm_compute. exact I. Qed.

Lemma not_surrogate_Exists (s : pystr) :
  Forall (λ c, surrogate c = false) s →
  ¬ Exists (λ c, surrogate c = true) s.
Proof.
  intros Hall (c & Hc & Hs)%Exists_exists.
  rewrite Forall_forall in Hall. specialize (Hall c Hc). congruence.
Qed.

Section HandlerFacts.
Context {json enhanced : Type}.
Variable api_key : option pystr.
Variable places : pystr → places_reply json.
Variable llm_rewrite :
  UserPref → gmap pystr (list (MapItem json)) → outcome enhanced.
Variable lower : pystr → pystr.

Lemma plan_payload_inv (pref : UserPref) (i : Z)
    (p : Payload (json:=json) (enhanced:=enhanced)) :
  plan_payload api_key places llm_rewrite lower pref i = Return p →
  payload_id p = [Z.to_N (65 + i)]
  ∧ ∃ plan,
      plan_itinerary lower pref i = Ok plan
      ∧ attach_maps_info_to_plan api_key places plan pref
        = Return (payload_draft p)
      ∧ llm_rewrite pref (payload_draft p) = Return (payload_enhanced p).
Proof.
  unfold plan_payload.
  destruct (plan_itinerary lower pref i) as [plan|]; [|done].
  cbn [lift_result mbind outcome_bind].
  destruct (attach_maps_info_to_plan api_key places plan pref) as [dec|]
    eqn:Hdec; [|done]. obind.
  destruct (llm_rewrite pref dec) as [enh|] eqn:Hllm; [|done]. obind.
  intros [= <-]. split; [done|]. by exists plan.
Qed.

Lemma plan_payloads_from_outcome (pref : UserPref) (variants : list Z) :
  match plan_payloads_from api_key places llm_rewrite lower pref variants with
  | Return ps =>
      Forall2 (λ i p, plan_payload api_key places llm_rewrite lower pref i
                      = Return p) variants ps
  | Throw e =>
      ∃ i, i ∈ variants
           ∧ plan_payload api_key places llm_rewrite lower pref i = Throw e
  end.
Proof.
  induction variants as [|i rest IH]; cbn [plan_payloads_from];
    [constructor|].
  destruct (plan_payload api_key places llm_rewrite lower pref i)
    as [p|e] eqn:Hp; obind.
  - destruct (plan_payloads_from api_key places llm_rewrite lower pref rest)
      as [ps|e]; obind.
    + by constructor.
    + destruct IH as (i0 & Hin & Hi0). exists i0. split; [by right|done].
  - exists i. split; [by left|done].
Qed.

(** With a day to fill, a city without surrogates and an [llm_rewrite] that
    returns, an iteration of the handler's loop returns. *)
Lemma plan_payload_returns (pref : UserPref) (i : Z) :
  (1 ≤ days pref)%Z →
  Forall (λ c, surrogate c = false) (city pref) →
  (∀ dec, ∃ enh, llm_rewrite pref dec = Return enh) →
  ∃ p, plan_payload api_key places llm_rewrite lower pref i = Return p.
Proof.
  intros HD Hcity Hllm. unfold plan_payload.
  destruct (plan_itinerary_Ok lower pref i HD) as (itin & Hal & ->).
  cbn [lift_result mbind outcome_bind].
  set (plan := {| plan_city := city pref; plan_days := days pref;
                  itinerary := itin |}).
  pose proof (attach_maps_outcome api_key places plan pref) as Hout.
  destruct (attach_maps_info_to_plan api_key places plan pref) as [dec|e].
  - obind. destruct (Hllm dec) as [enh ->]. obind. by eexists.
  - exfalso. destruct Hout as (day & items & it & Hday & Hin & Hq).
    pose proof (quote_outcome (name it ++ py " " ++ city pref)) as Hsafe.
    rewrite Hq in Hsafe. destruct Hsafe as [_ Hsafe].
    apply drop_blank in Hsafe; [|done].
    apply Exists_app in Hsafe as [Hname|Hc];
      [|by apply not_surrogate_Exists in Hcity].
    apply allocate_built_from in Hal.
    + destruct (Hal day items it Hday Hin) as (s & q & Hq' & ->).
      rewrite rotate_variant_perm in Hq'. apply rank_elem in Hq' as [Hq' _].
      pose proof POIS_names_encodable as Hnames.
      rewrite Forall_forall in Hnames.
      by apply (not_surrogate_Exists _ (Hnames q Hq')) in Hname.
    + intros day' items' it' ->%empty_days_empty Hit'.
      by apply not_elem_of_nil in Hit'.
Qed.

(** X14.  When the loop of [plan] completes, it has built between one and
    three payloads, as many as [num_plans] clamped to 1..3; the payload at
    index [i] has the id [chr(65 + i)] (A, B, C) and holds the plan of
    variant [i], decorated by [attach_maps_info_to_plan] and passed to
    [llm_rewrite]. *)
Theorem plans_payload_shape (pref : UserPref) (num_plans : Z)
    (ps : list (Payload (json:=json) (enhanced:=enhanced))) :
  plans_payload api_key places llm_rewrite lower pref num_plans = Return ps →
  Z.of_nat (length ps) = clamp_num_plans num_plans
  ∧ 1 ≤ length ps ≤ 3
  ∧ payload_id <$> ps = take (length ps) [py "A"; py "B"; py "C"]
  ∧ ∀ i p, ps !! i = Some p →
      payload_id p = [Z.to_N (65 + Z.of_nat i)]
      ∧ ∃ plan,
          plan_itinerary lower pref (Z.of_nat i) = Ok plan
          ∧ attach_maps_info_to_plan api_key places plan pref
            = Return (payload_draft p)
          ∧ llm_rewrite pref (payload_draft p) = Return (payload_enhanced p).
Proof.
  intros Hps. unfold plans_payload in Hps.
  pose proof (plan_payloads_from_outcome pref
                (seqZ 0 (clamp_num_plans num_plans))) as Hall.
  rewrite Hps in Hall.
  pose proof (clamp_num_plans_range num_plans) as [Hclamp _].
  assert (Z.of_nat (length ps) = clamp_num_plans num_plans) as Hlen.
  { apply Forall2_length in Hall. rewrite length_seqZ in Hall. lia. }
  assert (∀ i p, ps !! i = Some p →
            plan_payload api_key places llm_rewrite lower pref (Z.of_nat i)
            = Return p) as Hith.
  { intros i p Hi.
    destruct (Forall2_lookup_r _ _ _ _ _ Hall Hi) as (z & Hz & Hp).
    apply lookup_seqZ in Hz as [-> _]. by rewrite Z.add_0_l in Hp. }
  split_and!; [done|lia|lia| |].
  - apply list_eq. intros i. rewrite list_lookup_fmap.
    destruct (ps !! i) as [p|] eqn:Hi.
    + apply lookup_lt_Some in Hi as Hlt.
      apply Hith, plan_payload_inv in Hi as [Hid _].
      cbn [fmap option_fmap option_map]. rewrite Hid.
      rewrite lookup_take_lt by done.
      destruct i as [|[|[|i]]]; [done..|lia].
    + apply lookup_ge_None in Hi. cbn [fmap option_fmap option_map].
      symmetry. apply lookup_ge_None. rewrite length_take. lia.
  - intros i p Hi. by apply plan_payload_inv, Hith.
Qed.

(** X15.  With [days ≥ 1], a city without surrogates and an [llm_rewrite]
    that returns, the loop of [plan] completes for every [num_plans]: no
    exception of the engine or of the decoration reaches the handler. *)
Theorem plans_payload_returns (pref : UserPref) (num_plans : Z) :
  (1 ≤ days pref)%Z →
  Forall (λ c, surrogate c = false) (city pref) →
  (∀ dec, ∃ enh, llm_rewrite pref dec = Return enh) →
  ∃ ps, plans_payload api_key places llm_rewrite lower pref num_plans
        = Return ps.
Proof.
  intros HD Hcity Hllm. unfold plans_payload.
  pose proof (plan_payloads_from_outcome pref
                (seqZ 0 (clamp_num_plans num_plans))) as Hall.
  destruct (plan_payloads_from _ _ _ _ _ _) as [ps|e]; [by exists ps|].
  destruct Hall as (i & _ & Hi).
  destruct (plan_payload_returns pref i HD Hcity Hllm) as [p Hp].
  congruence.
Qed.

(** X16.  Without a day to fill ([days ≤ 0]) and with a POI of positive
    score, the loop of [plan] fails in its first iteration for every
    [num_plans], with the [ZeroDivisionError] or the [KeyError] of the
    engine, before any collaborator is called. *)
Theorem plans_payload_without_days (pref : UserPref) (num_plans : Z) :
  (days pref ≤ 0)%Z →
  rank lower pref ≠ [] →
  plans_payload api_key places llm_rewrite lower pref num_plans
  = Throw (EngineError (if decide (days pref = 0)%Z then ZeroDivisionError
                        else KeyError)).
Proof.
  intros HD Hrank. unfold plans_payload.
  pose proof (clamp_num_plans_range num_plans) as [Hclamp _].
  assert (seqZ 0 (clamp_num_plans num_plans)
          = 0%Z :: seqZ 1 (clamp_num_plans num_plans - 1)) as ->.
  { rewrite (seqZ_cons 0) by lia. f_equal. }
  cbn [plan_payloads_from]. unfold plan_payload.
  pose proof (rotate_variant_perm (rank lower pref) 0) as Hperm.
  rewrite plan_itinerary_unfold.
  destruct (rotate_variant (rank lower pref) 0) as [|q l] eqn:Hrot.
  { apply Permutation_nil_l in Hperm. done. }
  assert (allocate (days pref) 0 (q :: l) (empty_days (days pref))
          = Raise (if decide (days pref = 0)%Z then ZeroDivisionError
                   else KeyError)) as ->; [|done].
  cbn [allocate]. unfold place, py_mod.
  destruct (decide (days pref = 0)%Z) as [H0|H0]; [done|].
  cbn [mbind result_bind]. rewrite Z.mod_0_l by done.
  unfold dict_getitem.
  by rewrite empty_days_nonpos, lookup_empty by done.
Qed.
End HandlerFacts.

Lemma plans_payload_shape_witness :
  ∃ ps,
    plans_payload (json:=unit) (enhanced:=unit) None (λ _, PlacesNoResult)
      (λ _ _, Return tt) ascii_lower osaka_pref 5 = Return ps
    ∧ length ps = 3
    ∧ payload_id <$> ps = [py "A"; py "B"; py "C"].
Proof.
  destruct (plans_payload (json:=unit) (enhanced:=unit) None
              (λ _, PlacesNoResult) (λ _ _, Return tt) ascii_lower
              osaka_pref 5) as [ps|e] eqn:Hps;
    [|vm_compute in Hps; discriminate Hps].
  destruct (plans_payload_shape _ _ _ _ _ _ ps Hps) as (Hlen & _ & Hids & _).
  assert (length ps = 3) as Hl by (change (clamp_num_plans 5) with 3%Z in Hlen; lia).
  exists ps. split; [reflexivity|]. split; [exact Hl|].
  rewrite Hids, Hl. reflexivity.
Defined.

Lemma plans_payload_returns_witness :
  (1 ≤ days osaka_pref)%Z
  ∧ Forall (λ c, surrogate c = false) (city osaka_pref)
  ∧ ∃ ps,
      plans_payload (json:=unit) (enhanced:=unit) (Some (py "key"))
        (λ _, PlacesRaised) (λ _ _, Return tt) ascii_lower osaka_pref 2
      = Return ps.
Proof.
  assert (Forall (λ c, surrogate c = false) (city osaka_pref)) as Hcity.
  { apply (bool_decide_unpack _). vm_compute. exact I. }
  split; [vm_compute; discriminate|]. split; [exact Hcity|].
  apply plans_payload_returns; [vm_compute; discriminate|exact Hcity|].
  intros dec. by exists tt.
Defined.

Lemma plans_payload_without_days_witness :
  let zero := {| city := py "osaka"; days := 0; interests := [night_view];
                 with_kids := false; budget := py "$$"; max_walk_min := 20;
                 travel_style := py "mixed" |} in
  (days zero ≤ 0)%Z
  ∧ rank ascii_lower zero ≠ []
  ∧ plans_payload (json:=unit) (enhanced:=unit) None (λ _, PlacesNoResult)
      (λ _ _, Return tt) ascii_lower zero 1
    = Throw (EngineError ZeroDivisionError).
Proof.
  split; [vm_compute; discriminate|]. split; [vm_compute; discriminate|].
  rewrite plans_payload_without_days;
    [reflexivity|vm_compute; discriminate..].
Defined.
